(** * The GitHub API access layer of the dashboard

    A shallow embedding of the [GitHubAPI] class (URL parsing, the
    time-bounded request cache, the fetching method and the two pure
    classification helpers) together with the properties its
    specification states about it. *)

From Stdlib Require Import ZArith Lia Ascii String.
From stdpp Require Import gmap strings pretty.

Local Open Scope Z_scope.

(** ** JavaScript values and exceptions *)

(** The values the class handles: what [response.json()] produces, plus
    [undefined] for a field that is missing from a record.  Numbers are kept
    as integers: the class only tests them for truthiness and never computes
    with a payload. *)
#[warning="-register-all"]
Inductive value : Type :=
  | VUndefined
  | VNull
  | VBool (b : bool)
  | VNum (n : Z)
  | VStr (s : string)
  | VArr (items : list value)
  | VObj (fields : list (string * value)).

(** ToBoolean, as applied by [if (x)], [x && y] and [x || y]. *)
Definition truthy (v : value) : bool :=
  match v with
  | VUndefined | VNull => false
  | VBool b => b
  | VNum n => negb (n =? 0)%Z
  | VStr s => negb (String.eqb s "")
  | VArr _ | VObj _ => true
  end.

(** What a method can throw: [new Error(message)] built by the class itself,
    the [TypeError] a failed [fetch] rejects with, and the [SyntaxError] of
    [response.json()] on a body that is not JSON. *)
Inductive thrown : Type :=
  | JsError (message : string)
  | TypeError (message : string)
  | SyntaxError.

Inductive outcome (A : Type) : Type :=
  | Return (a : A)
  | Throw (e : thrown).
Arguments Return {A} a.
Arguments Throw {A} e.

(** ** Regular expressions

    The two regular-expression literals of [parseRepoURL] are run by a small
    backtracking matcher for the fragment they use: single characters,
    negated one-character classes, greedy [+] on a character, capturing
    groups, concatenation and [$]. *)
Module Regex.

Inductive atom : Type :=
  | Is (c : ascii)       (* the character c, escaped or not *)
  | IsNot (c : ascii).   (* [^c] *)

Inductive regex : Type :=
  | One (a : atom)
  | Many1 (a : atom)     (* a+ *)
  | Group (r : regex)    (* ( r ) *)
  | Seq (r1 r2 : regex)
  | EndOfInput.          (* $ *)

Definition accepts (a : atom) (c : ascii) : bool :=
  match a with
  | Is x => Ascii.eqb c x
  | IsNot x => negb (Ascii.eqb c x)
  end.

(** The text consumed between the input [s] and its suffix [s']. *)
Definition consumed (s s' : string) : string :=
  substring 0%nat (String.length s - String.length s')%nat s.

(** Greedy [a+]: take a character, try to take more, and only when the
    rest of the pattern fails after that give the characters back. *)
Fixpoint many1 {R} (a : atom) (s : string) (k : string -> option R) : option R :=
  match s with
  | String c s' =>
      if accepts a c then
        match many1 a s' k with
        | Some r => Some r
        | None => k s'
        end
      else None
  | EmptyString => None
  end.

(** [run r s caps k] matches [r] at the start of [s]; [caps] are the groups
    closed so far and [k] is the rest of the pattern. *)
Fixpoint run {R} (r : regex) (s : string) (caps : list string)
    (k : string -> list string -> option R) : option R :=
  match r with
  | One a =>
      match s with
      | String c s' => if accepts a c then k s' caps else None
      | EmptyString => None
      end
  | Many1 a => many1 a s (fun s' => k s' caps)
  | Group r' => run r' s caps (fun s' caps' => k s' (caps' ++ [consumed s s']))
  | Seq r1 r2 => run r1 s caps (fun s' caps' => run r2 s' caps' k)
  | EndOfInput =>
      match s with
      | EmptyString => k s caps
      | String _ _ => None
      end
  end.

(** A match anchored at the start of [s]: the groups and the unread rest. *)
Definition here (r : regex) (s : string) : option (list string * string) :=
  run r s [] (fun s' caps => Some (caps, s')).

(** [String.prototype.match] without the g flag: the groups of the
    leftmost match. *)
Fixpoint exec (r : regex) (s : string) : option (list string) :=
  match here r s with
  | Some (caps, _) => Some caps
  | None =>
      match s with
      | String _ s' => exec r s'
      | EmptyString => None
      end
  end.

(** [String.prototype.replace] without the g flag: the leftmost match is
    replaced, a string without a match is returned as it is. *)
Fixpoint replace (r : regex) (s rep : string) : string :=
  match here r s with
  | Some (_, s') => rep +:+ s'
  | None =>
      match s with
      | String c s' => String c (replace r s' rep)
      | EmptyString => EmptyString
      end
  end.

Fixpoint literal (s : string) (r : regex) : regex :=
  match s with
  | String c s' => Seq (One (Is c)) (literal s' r)
  | EmptyString => r
  end.

End Regex.

(** ** parseRepoURL *)

Record RepoRef : Type := { owner : string; repo : string }.

(** [/github\.com\/([^\/]+)\/([^\/]+)/] *)
Definition repo_regex : Regex.regex :=
  Regex.literal "github.com/"
    (Regex.Seq (Regex.Group (Regex.Many1 (Regex.IsNot "/")))
       (Regex.Seq (Regex.One (Regex.Is "/"))
          (Regex.Group (Regex.Many1 (Regex.IsNot "/"))))).

(** [/\.git$/] *)
Definition git_regex : Regex.regex :=
  Regex.literal ".git" Regex.EndOfInput.

Definition parseRepoURL (url : string) : outcome RepoRef :=
  match Regex.exec repo_regex url with
  | Some [m1; m2] =>
      Return {| owner := m1; repo := Regex.replace git_regex m2 "" |}
  | _ => Throw (JsError "Invalid GitHub repository URL")
  end.

(** ** The world the methods run in *)

(** One entry of [this.cache]: [{ data, timestamp }]. *)
Record CacheEntry : Type := { data : value; timestamp : Z }.

(** The fields the constructor sets on [this]. *)
Record GitHubAPI : Type := {
  baseURL : string;
  cache : gmap string CacheEntry;
  cacheTimeout : Z
}.

(** [new GitHubAPI()] *)
Definition new_GitHubAPI : GitHubAPI :=
  {| baseURL := "https://api.github.com";
     cache := ∅;
     cacheTimeout := 5 * 60 * 1000 |}.

(** What the server side of a [fetch] looks like to the class: the HTTP
    status, and the body as [response.json()] will parse it ([None] when the
    body is not JSON), each arriving after some milliseconds. *)
Record Response : Type := {
  status : N;
  body : option value;
  body_delay : N
}.

(** [response.ok]: the status is in the range 200-299. *)
Definition ok (r : Response) : bool :=
  ((200 <=? status r) && (status r <=? 299))%N.

Inductive settled : Type :=
  | Rejected (message : string)    (* transport failure *)
  | Resolved (r : Response).

Record Reply : Type := { delay : N; result : settled }.

(** The object, the clock read by [Date.now()] and [new Date()], the remote
    side (the reply to a URL requested at a given time), the URLs requested
    so far and what was written with [console.error]. *)
Record World : Type := {
  this : GitHubAPI;
  clock : Z;
  network : string -> Z -> Reply;
  sent : list string;
  console : list thrown
}.

(** Methods are state transformers over the world that return or throw. *)
Definition M (A : Type) : Type := World -> outcome A * World.

#[global] Instance M_ret : MRet M := fun A a w => (Return a, w).

#[global] Instance M_bind : MBind M := fun A B f m w =>
  match m w with
  | (Return a, w') => f a w'
  | (Throw e, w') => (Throw e, w')
  end.

Definition throw {A} (e : thrown) : M A := fun w => (Throw e, w).

(** [try { body } catch (error) { handler }] *)
Definition try_catch {A} (body : M A) (handler : thrown -> M A) : M A :=
  fun w =>
    match body w with
    | (Return a, w') => (Return a, w')
    | (Throw e, w') => handler e w'
    end.

Definition get_this : M GitHubAPI := fun w => (Return (this w), w).

Definition Date_now : M Z := fun w => (Return (clock w), w).

(** [this.cache.get(key)] *)
Definition cache_get (key : string) : M (option CacheEntry) :=
  fun w => (Return (cache (this w) !! key), w).

(** [this.cache.set(key, entry)] *)
Definition cache_set (key : string) (entry : CacheEntry) : M unit :=
  fun w =>
    (Return tt,
     {| this := {| baseURL := baseURL (this w);
                   cache := <[key := entry]> (cache (this w));
                   cacheTimeout := cacheTimeout (this w) |};
        clock := clock w; network := network w;
        sent := sent w; console := console w |}).

(** Time passing while an [await] is pending. *)
Definition elapse (ms : N) (w : World) : World :=
  {| this := this w; clock := clock w + Z.of_N ms; network := network w;
     sent := sent w; console := console w |}.

(** [await fetch(url, { headers: { 'Accept': ... } })]; the header is the
    same on every request and is left out of the record of what was sent. *)
Definition fetch (url : string) : M Response :=
  fun w =>
    let reply := network w url (clock w) in
    let w' := elapse (delay reply)
                {| this := this w; clock := clock w; network := network w;
                   sent := sent w ++ [url]; console := console w |} in
    match result reply with
    | Rejected message => (Throw (TypeError message), w')
    | Resolved r => (Return r, w')
    end.

(** [await response.json()] *)
Definition response_json (r : Response) : M value :=
  fun w =>
    match body r with
    | Some v => (Return v, elapse (body_delay r) w)
    | None => (Throw SyntaxError, elapse (body_delay r) w)
    end.

Definition console_error (e : thrown) : M unit :=
  fun w =>
    (Return tt,
     {| this := this w; clock := clock w; network := network w;
        sent := sent w; console := console w ++ [e] |}).

(** ** The cache and the fetching method *)

Definition getCached (key : string) : M value :=
  cached ← cache_get key;
  match cached with
  | Some entry =>
      now ← Date_now;
      self ← get_this;
      if bool_decide (now - timestamp entry < cacheTimeout self)
      then mret (data entry)
      else mret VNull
  | None => mret VNull
  end.

Definition setCache (key : string) (payload : value) : M unit :=
  now ← Date_now;
  cache_set key {| data := payload; timestamp := now |}.

Definition request (endpoint : string) : M value :=
  let cacheKey := endpoint in
  cached ← getCached cacheKey;
  if truthy cached then mret cached
  else
    try_catch
      (self ← get_this;
       response ← fetch (baseURL self +:+ endpoint);
       if negb (ok response)
       then throw (JsError ("GitHub API error: " +:+ pretty (status response)))
       else
         payload ← response_json response;
         _ ← setCache cacheKey payload;
         mret payload)
      (fun error =>
         _ ← console_error error;
         throw error).

(** ** The accessors *)

(** The numbers the accessors are called with.  A workflow id and a page
    size are integers, and an integer whose magnitude is below 2^53 (the
    safe integers of JavaScript) is one number of the language, different
    from every other one, which a template literal prints as its decimal
    digits.  Beyond that range distinct integers fall together and, from
    10^21 on, the printed form has an exponent: the accessors are modelled
    on the safe integers only. *)
Definition safe (n : Z) : Prop := - 2 ^ 53 < n < 2 ^ 53.

#[global] Instance safe_dec (n : Z) : Decision (safe n).
Proof. unfold safe. apply _. Defined.

Definition SafeInteger : Type := dsig safe.

(** [`${n}`] for a safe integer. *)
Definition integer_text (n : SafeInteger) : string := pretty (proj1_sig n).

Definition five : SafeInteger := dexist 5 (conj eq_refl eq_refl).

Definition ten : SafeInteger := dexist 10 (conj eq_refl eq_refl).

(** The template literals of the four accessors. *)
Definition repository_endpoint (owner repo : string) : string :=
  "/repos/" +:+ owner +:+ "/" +:+ repo.

Definition workflows_endpoint (owner repo : string) : string :=
  "/repos/" +:+ owner +:+ "/" +:+ repo +:+ "/actions/workflows".

Definition workflow_runs_endpoint (owner repo : string)
    (workflowId perPage : SafeInteger) : string :=
  "/repos/" +:+ owner +:+ "/" +:+ repo +:+ "/actions/workflows/"
    +:+ integer_text workflowId +:+ "/runs?per_page=" +:+ integer_text perPage.

Definition recent_runs_endpoint (owner repo : string) (perPage : SafeInteger)
    : string :=
  "/repos/" +:+ owner +:+ "/" +:+ repo +:+ "/actions/runs?per_page="
    +:+ integer_text perPage.

Definition getRepository (owner repo : string) : M value :=
  request (repository_endpoint owner repo).

Definition getWorkflows (owner repo : string) : M value :=
  request (workflows_endpoint owner repo).

(** [perPage = 5]: an argument left out takes the default. *)
Definition getWorkflowRuns (owner repo : string) (workflowId : SafeInteger)
    (perPage : option SafeInteger) : M value :=
  request (workflow_runs_endpoint owner repo workflowId (default five perPage)).

(** [perPage = 10] *)
Definition getRecentWorkflowRuns (owner repo : string)
    (perPage : option SafeInteger) : M value :=
  request (recent_runs_endpoint owner repo (default ten perPage)).

(** ** Status classification *)

(** [v === 'literal'], also the comparison a [switch] makes for a
    [case 'literal']. *)
Definition is_string (v : value) (literal : string) : bool :=
  match v with
  | VStr s => String.eqb s literal
  | _ => false
  end.

Definition getStatusClass (conclusion status : value) : value :=
  if is_string status "in_progress" || is_string status "queued"
  then status
  else
    if is_string conclusion "success" then VStr "success"
    else if is_string conclusion "failure" then VStr "failure"
    else if is_string conclusion "cancelled" then VStr "cancelled"
    else if truthy status then status else VStr "queued".

Definition getStatusText (conclusion status : value) : value :=
  if is_string status "in_progress" then VStr "In Progress"
  else if is_string status "queued" then VStr "Queued"
  else
    if is_string conclusion "success" then VStr "Success"
    else if is_string conclusion "failure" then VStr "Failure"
    else if is_string conclusion "cancelled" then VStr "Cancelled"
    else if truthy status then status else VStr "Unknown".

(** ** Relative time *)

(** A JavaScript number that is an integer or NaN: time values of [Date]
    objects and what the method derives from them. *)
Definition number : Type := option Z.

Definition NaN : number := None.

Definition num_sub (x y : number) : number :=
  match x, y with
  | Some a, Some b => Some (a - b)
  | _, _ => NaN
  end.

(** [Math.floor(x / d)] for a positive integer constant [d]. *)
Definition floor_div (x : number) (d : Z) : number :=
  match x with
  | Some a => Some (a / d)
  | None => NaN
  end.

(** [x < c] and [x > c]: false when [x] is NaN. *)
Definition num_lt (x : number) (c : Z) : bool :=
  match x with
  | Some a => a <? c
  | None => false
  end.

Definition num_gt (x : number) (c : Z) : bool :=
  match x with
  | Some a => c <? a
  | None => false
  end.

(** A number inside a template literal. *)
Definition num_to_string (x : number) : string :=
  match x with
  | Some a => pretty a
  | None => "NaN"
  end.

Section Dates.

(** The two built-ins of [Date] the method relies on: the time value of
    [new Date(dateString)], NaN for a string that is not a date, and the
    locale's rendering of a date. *)
Variable Date_parse : string -> number.
Variable toLocaleDateString : number -> string.

Definition formatDate (dateString : string) : M string :=
  let date := Date_parse dateString in
  now ← Date_now;
  let diffMs := num_sub (Some now) date in
  let diffMins := floor_div diffMs 60000 in
  let diffHours := floor_div diffMs 3600000 in
  let diffDays := floor_div diffMs 86400000 in
  if num_lt diffMins 1 then mret "just now"
  else if num_lt diffMins 60 then
    mret (num_to_string diffMins +:+ " minute"
            +:+ (if num_gt diffMins 1 then "s" else "") +:+ " ago")
  else if num_lt diffHours 24 then
    mret (num_to_string diffHours +:+ " hour"
            +:+ (if num_gt diffHours 1 then "s" else "") +:+ " ago")
  else if num_lt diffDays 7 then
    mret (num_to_string diffDays +:+ " day"
            +:+ (if num_gt diffDays 1 then "s" else "") +:+ " ago")
  else mret (toLocaleDateString date).

End Dates.

(** ** The repository list of the admin page *)

(** The page the admin script runs in: the world of the API client,
    [localStorage], which is taken to accept every write, and the one
    element the modelled methods look up, the one with the id
    [repo-list-container]: absent when the page has none, and otherwise the
    markup last assigned to its [innerHTML].  What the browser builds inside
    the container from that markup is not part of the model. *)
Record Page : Type := {
  client : World;
  localStorage : gmap string string;
  list_container : option string
}.

Definition P (A : Type) : Type := Page -> outcome A * Page.

#[global] Instance P_ret : MRet P := fun A a p => (Return a, p).

#[global] Instance P_bind : MBind P := fun A B f m p =>
  match m p with
  | (Return a, p') => f a p'
  | (Throw e, p') => (Throw e, p')
  end.

(** A method of the API client, called from the page. *)
Definition lift {A} (m : M A) : P A :=
  fun p =>
    ((m (client p)).1,
     {| client := (m (client p)).2; localStorage := localStorage p;
        list_container := list_container p |}).

(** A computation without effect that returns or throws. *)
Definition of_outcome {A} (o : outcome A) : P A := fun p => (o, p).

Definition catch {A} (body : P A) (handler : thrown -> P A) : P A :=
  fun p =>
    match body p with
    | (Return a, p') => (Return a, p')
    | (Throw e, p') => handler e p'
    end.

(** [localStorage.getItem(key)]: null for a key that is not there. *)
Definition getItem (key : string) : P (option string) :=
  fun p => (Return (localStorage p !! key), p).

(** [localStorage.setItem(key, text)] *)
Definition setItem (key text : string) : P unit :=
  fun p =>
    (Return tt,
     {| client := client p; localStorage := <[key := text]> (localStorage p);
        list_container := list_container p |}).

(** [document.getElementById('repo-list-container')]: null when the page
    has no such element. *)
Definition get_list_container : P (option string) :=
  fun p => (Return (list_container p), p).

(** [container.innerHTML = markup], on the container just found. *)
Definition set_container_markup (markup : string) : P unit :=
  fun p =>
    (Return tt,
     {| client := client p; localStorage := localStorage p;
        list_container := Some markup |}).

(** [this.storageKey], set by the constructor of [RepoManager]. *)
Definition storageKey : string := "github-repos".

(** What [addRepo] returns. *)
Record AddResult : Type := { success : bool; message : string }.

(** The value of the own property [name] of an object that [JSON.parse]
    built: a later duplicate of a key wins. *)
Definition field (name : string) (fields : list (string * value)) : value :=
  fold_left (fun found kv => if String.eqb kv.1 name then kv.2 else found)
    fields VUndefined.

(** A line feed, and a text inside double quotes, for the markup. *)
Definition nl : string := String "010" "".

Definition quoted (s : string) : string :=
  String "034" "" +:+ s +:+ String "034" "".

#[global] Instance outcome_ret : MRet outcome := fun A a => Return a.

#[global] Instance outcome_bind : MBind outcome := fun A B f o =>
  match o with
  | Return a => f a
  | Throw e => Throw e
  end.

Section Admin.

(** What the platform supplies: [JSON.parse] ([None] when it throws its
    SyntaxError), [JSON.stringify], [Date.prototype.toISOString] on a time
    value, the texts of the messages of the engine's own errors, and the
    text of a number inside a template literal. *)
Variable JSON_parse : string -> option value.
Variable JSON_stringify : value -> string.
Variable toISOString : Z -> string.
Variable syntax_error_message : string.
Variable type_error_message : value -> string -> string.
Variable number_text : Z -> string.

(** [error.message] *)
Definition error_message (e : thrown) : string :=
  match e with
  | JsError m => m
  | TypeError m => m
  | SyntaxError => syntax_error_message
  end.

(** [v.name] for the names the script reads, [owner], [repo], [html_url]
    and [description], none of which is a property of a prototype: reading
    from null or undefined throws, and a value that is no object with that
    key gives undefined. *)
Definition get_property (v : value) (name : string) : outcome value :=
  match v with
  | VUndefined | VNull => Throw (TypeError (type_error_message v name))
  | VObj fields => Return (field name fields)
  | VBool _ | VNum _ | VStr _ | VArr _ => Return VUndefined
  end.

(** [r => r.owner === owner && r.repo === repo] *)
Definition same_repo (owner repo : string) (r : value) : outcome bool :=
  match get_property r "owner" with
  | Throw e => Throw e
  | Return o =>
      if is_string o owner then
        match get_property r "repo" with
        | Throw e => Throw e
        | Return n => Return (is_string n repo)
        end
      else Return false
  end.

(** [Array.prototype.some]: the elements in order, up to the first one the
    callback accepts. *)
Fixpoint some_loop (callback : value -> outcome bool) (items : list value)
    : outcome bool :=
  match items with
  | [] => Return false
  | r :: rest =>
      match callback r with
      | Throw e => Throw e
      | Return true => Return true
      | Return false => some_loop callback rest
      end
  end.

(** [repos.some(callback)]: what [JSON.parse] returned need not be an array,
    and only an array has the method. *)
Definition array_some (repos : value) (callback : value -> outcome bool)
    : outcome bool :=
  match repos with
  | VArr items => some_loop callback items
  | _ => Throw (TypeError (type_error_message repos "some"))
  end.

(** [repos.push(item)], with the array it leaves behind. *)
Definition array_push (repos item : value) : outcome value :=
  match repos with
  | VArr items => Return (VArr (items ++ [item]))
  | _ => Throw (TypeError (type_error_message repos "push"))
  end.

(** [RepoManager.getRepos] *)
Definition getRepos : P value :=
  stored ← getItem storageKey;
  match stored with
  | Some text =>
      if negb (String.eqb text "") then
        match JSON_parse text with
        | Some repos => mret repos
        | None => of_outcome (Throw SyntaxError)
        end
      else mret (VArr [])
  | None => mret (VArr [])
  end.

(** [Dashboard.getRepos], with the key written out. *)
Definition Dashboard_getRepos : P value :=
  stored ← getItem "github-repos";
  match stored with
  | Some text =>
      if negb (String.eqb text "") then
        match JSON_parse text with
        | Some repos => mret repos
        | None => of_outcome (Throw SyntaxError)
        end
      else mret (VArr [])
  | None => mret (VArr [])
  end.

(** [RepoManager.saveRepos] *)
Definition saveRepos (repos : value) : P unit :=
  setItem storageKey (JSON_stringify repos).

(** The object literal that [addRepo] pushes. *)
Definition added_record (ref : RepoRef) (html_url description : value)
    (now : Z) : value :=
  VObj [("owner", VStr (owner ref)); ("repo", VStr (repo ref));
        ("url", html_url); ("description", description);
        ("addedAt", VStr (toISOString now))].

(** [RepoManager.addRepo] *)
Definition addRepo (url : string) : P AddResult :=
  catch
    (ref ← of_outcome (parseRepoURL url);
     repos ← getRepos;
     found ← of_outcome (array_some repos (same_repo (owner ref) (repo ref)));
     if (found : bool)
     then of_outcome (Throw (JsError "Repository already exists in the list"))
     else
       repoData ← lift (getRepository (owner ref) (repo ref));
       html_url ← of_outcome (get_property repoData "html_url");
       description ← of_outcome (get_property repoData "description");
       now ← lift Date_now;
       repos' ← of_outcome
                  (array_push repos (added_record ref html_url description now));
       _ ← saveRepos repos';
       mret {| success := true; message := "Repository added successfully!" |})
    (fun error =>
       mret {| success := false; message := error_message error |}).

(** A value inside a template literal.  Null and undefined give their
    names, a number the text the platform has for it, an array joins its
    elements with commas, null and undefined elements giving nothing; an
    object gives [[object Object]] unless it has a key [toString] of its own,
    which is no function and leaves no way to a primitive. *)
Fixpoint to_string (v : value) : outcome string :=
  match v with
  | VUndefined => Return "undefined"
  | VNull => Return "null"
  | VBool true => Return "true"
  | VBool false => Return "false"
  | VNum n => Return (number_text n)
  | VStr s => Return s
  | VArr items =>
      (fix join (l : list value) : outcome string :=
         match l with
         | [] => Return ""
         | x :: rest =>
             match (match x with
                    | VUndefined | VNull => Return ""
                    | _ => to_string x
                    end) with
             | Throw e => Throw e
             | Return sx =>
                 match rest with
                 | [] => Return sx
                 | _ :: _ =>
                     match join rest with
                     | Throw e => Throw e
                     | Return srest => Return (sx +:+ "," +:+ srest)
                     end
                 end
             end
         end) items
  | VObj fields =>
      if existsb (fun kv => String.eqb kv.1 "toString") fields
      then Throw (TypeError (type_error_message v "toString"))
      else Return "[object Object]"
  end.

(** [repos.length === 0] *)
Definition length_is_zero (repos : value) : outcome bool :=
  match repos with
  | VUndefined | VNull => Throw (TypeError (type_error_message repos "length"))
  | VArr items => Return (bool_decide (length items = 0%nat))
  | VStr s => Return (String.eqb s "")
  | VObj fields =>
      Return match field "length" fields with
             | VNum n => (n =? 0)%Z
             | _ => false
             end
  | VBool _ | VNum _ => Return false
  end.

(** The template literal of one entry of the list. *)
Definition repo_item_markup (repo : value) : outcome string :=
  o ← get_property repo "owner";
  owner_text ← to_string o;
  n ← get_property repo "repo";
  repo_text ← to_string n;
  d ← get_property repo "description";
  description_text ← to_string (if truthy d then d else VStr "No description");
  o' ← get_property repo "owner";
  owner_text' ← to_string o';
  n' ← get_property repo "repo";
  repo_text' ← to_string n';
  mret (nl
    +:+ "            <div class=" +:+ quoted "repo-list-item" +:+ ">" +:+ nl
    +:+ "                <div class=" +:+ quoted "repo-list-item-info" +:+ ">" +:+ nl
    +:+ "                    <h4>" +:+ owner_text +:+ "/" +:+ repo_text +:+ "</h4>" +:+ nl
    +:+ "                    <p>" +:+ description_text +:+ "</p>" +:+ nl
    +:+ "                </div>" +:+ nl
    +:+ "                <button " +:+ nl
    +:+ "                    class=" +:+ quoted "remove-btn" +:+ " " +:+ nl
    +:+ "                    onclick="
    +:+ quoted ("repoManager.removeRepo('" +:+ owner_text' +:+ "', '"
                  +:+ repo_text' +:+ "')") +:+ nl
    +:+ "                >" +:+ nl
    +:+ "                    Remove" +:+ nl
    +:+ "                </button>" +:+ nl
    +:+ "            </div>" +:+ nl
    +:+ "        ").

(** [Array.prototype.map] with a callback that may throw. *)
Fixpoint map_loop {A} (callback : value -> outcome A) (items : list value)
    : outcome (list A) :=
  match items with
  | [] => Return []
  | r :: rest =>
      match callback r with
      | Throw e => Throw e
      | Return a =>
          match map_loop callback rest with
          | Throw e => Throw e
          | Return done => Return (a :: done)
          end
      end
  end.

(** [repos.map(callback).join('')] *)
Definition array_map_join (repos : value) (callback : value -> outcome string)
    : outcome string :=
  match repos with
  | VArr items =>
      match map_loop callback items with
      | Throw e => Throw e
      | Return parts => Return (foldr String.append "" parts)
      end
  | _ => Throw (TypeError (type_error_message repos "map"))
  end.

(** [Array.prototype.filter] with a callback that may throw. *)
Fixpoint filter_loop (callback : value -> outcome bool) (items : list value)
    : outcome (list value) :=
  match items with
  | [] => Return []
  | r :: rest =>
      match callback r with
      | Throw e => Throw e
      | Return keep =>
          match filter_loop callback rest with
          | Throw e => Throw e
          | Return kept => Return (if keep then r :: kept else kept)
          end
      end
  end.

(** [repos.filter(callback)] *)
Definition array_filter (repos : value) (callback : value -> outcome bool)
    : outcome value :=
  match repos with
  | VArr items =>
      match filter_loop callback items with
      | Throw e => Throw e
      | Return kept => Return (VArr kept)
      end
  | _ => Throw (TypeError (type_error_message repos "filter"))
  end.

(** [RepoManager.loadRepoList] *)
Definition loadRepoList : P unit :=
  container ← get_list_container;
  match container with
  | None => mret tt
  | Some _ =>
      repos ← getRepos;
      empty ← of_outcome (length_is_zero repos);
      if (empty : bool)
      then set_container_markup
             ("<p class=" +:+ quoted "no-repos"
                +:+ ">No repositories configured yet. Add one above!</p>")
      else
        markup ← of_outcome (array_map_join repos repo_item_markup);
        set_container_markup markup
  end.

(** [r => !(r.owner === owner && r.repo === repo)] *)
Definition other_repo (owner repo : string) (r : value) : outcome bool :=
  match same_repo owner repo r with
  | Throw e => Throw e
  | Return b => Return (negb b)
  end.

(** [RepoManager.removeRepo] *)
Definition removeRepo (owner repo : string) : P unit :=
  repos ← getRepos;
  filtered ← of_outcome (array_filter repos (other_repo owner repo));
  _ ← saveRepos filtered;
  loadRepoList.

End Admin.

(** * Vocabulary of the statements *)

(** ** Runs of characters *)

Module RegexAux.
Import Regex.

(** Every character of [s] is accepted by [a]. *)
Fixpoint all_accepted (a : atom) (s : string) : bool :=
  match s with
  | String c s' => accepts a c && all_accepted a s'
  | EmptyString => true
  end.

(** A run of [a] cannot continue into [s]. *)
Definition stops (a : atom) (s : string) : Prop :=
  match s with
  | String c _ => accepts a c = false
  | EmptyString => True
  end.

(** The longest prefix of accepted characters, and what follows it. *)
Fixpoint span (a : atom) (s : string) : string * string :=
  match s with
  | String c s' =>
      if accepts a c then (String c (span a s').1, (span a s').2)
      else (EmptyString, s)
  | EmptyString => (EmptyString, EmptyString)
  end.

Fixpoint strip_prefix (p s : string) : option string :=
  match p, s with
  | EmptyString, _ => Some s
  | String x p', String c s' =>
      if Ascii.eqb c x then strip_prefix p' s' else None
  | String _ _, EmptyString => None
  end.

End RegexAux.

(** ** Repository paths, cache hits, phrases *)

Fixpoint slash_free (s : string) : bool :=
  match s with
  | String c s' => negb (Ascii.eqb c "/") && slash_free s'
  | EmptyString => true
  end.

(** A path segment: one character or more, none of them a slash. *)
Definition segment (s : string) : Prop := s <> "" /\ slash_free s = true.

(** What may follow a segment: the end of the input or a slash. *)
Definition segment_end (rest : string) : Prop :=
  rest = "" \/ exists t, rest = String "/" t.

(** [url] reads [pre github.com/ owner / seg rest], with [owner] and [seg]
    whole path segments. *)
Definition repo_pattern_at (url pre owner seg rest : string) : Prop :=
  url = pre +:+ "github.com/" +:+ owner +:+ "/" +:+ seg +:+ rest
  /\ segment owner /\ segment seg /\ segment_end rest.

(** No occurrence of the pattern starts before [pre] ends. *)
Definition leftmost (url pre : string) : Prop :=
  forall pre' owner' seg' rest',
    repo_pattern_at url pre' owner' seg' rest' ->
    (String.length pre <= String.length pre')%nat.

(** The entry stored under [key] is within its time to live. *)
Definition fresh_entry (w : World) (key : string) (e : CacheEntry) : Prop :=
  cache (this w) !! key = Some e
  /\ clock w - timestamp e < cacheTimeout (this w).

(** [request] answers [key] from the cache: a fresh entry with a truthy
    payload. *)
Definition served_from_cache (w : World) (key : string) : Prop :=
  exists e, fresh_entry w key e /\ truthy (data e) = true.

(** The network call fails, and this is the error that goes with the
    failure: the rejection of a [fetch] that did not get through, the status
    of a response outside 200-299, the SyntaxError of a body that is no
    JSON. *)
Inductive network_failure (reply : Reply) : thrown -> Prop :=
  | transport_failure (m : string) :
      result reply = Rejected m ->
      network_failure reply (TypeError m)
  | status_failure (r : Response) :
      result reply = Resolved r -> ok r = false ->
      network_failure reply
        (JsError ("GitHub API error: " +:+ pretty (status r)))
  | body_failure (r : Response) :
      result reply = Resolved r -> ok r = true -> body r = None ->
      network_failure reply SyntaxError.

(** What the method does when the cache does not answer. *)
Definition request_network (endpoint : string) : M value :=
  try_catch
    (self ← get_this;
     response ← fetch (baseURL self +:+ endpoint);
     if negb (ok response)
     then throw (JsError ("GitHub API error: " +:+ pretty (status response)))
     else
       payload ← response_json response;
       _ ← setCache endpoint payload;
       mret payload)
    (fun error =>
       _ ← console_error error;
       throw error).

(** The phrase for [n] units: the unit takes an s when [n] exceeds one. *)
Definition ago (n : Z) (unit : string) : string :=
  pretty n +:+ " " +:+ unit +:+ (if bool_decide (1 < n) then "s" else "")
    +:+ " ago".

(** ** Sample data for concrete runs *)

Definition sample_repo : value :=
  VObj [("full_name", VStr "acme/widgets"); ("stargazers_count", VNum 7)].

(** A server that answers every request with the status and the body. *)
Definition server (code : N) (payload : option value) : string -> Z -> Reply :=
  fun _ _ =>
    {| delay := 120;
       result := Resolved {| status := code; body := payload; body_delay := 3 |} |}.

Definition offline : string -> Z -> Reply :=
  fun _ _ => {| delay := 30; result := Rejected "Failed to fetch" |}.

(** A client as the constructor builds it, with the given cache content. *)
Definition world (entries : gmap string CacheEntry) (now : Z)
    (net : string -> Z -> Reply) : World :=
  {| this := {| baseURL := baseURL new_GitHubAPI;
                cache := entries;
                cacheTimeout := cacheTimeout new_GitHubAPI |};
     clock := now; network := net; sent := []; console := [] |}.

Definition repo_entry : CacheEntry := {| data := sample_repo; timestamp := 1000 |}.
Definition flag_entry : CacheEntry := {| data := VBool false; timestamp := 1000 |}.

(** A stand-in for the two [Date] built-ins: one known ISO string. *)
Definition parse_sample (s : string) : number :=
  if String.eqb s "2024-01-01T00:00:00Z" then Some 1704067200000 else NaN.

Definition locale_sample (d : number) : string :=
  match d with
  | Some _ => "1/1/2024"
  | None => "Invalid Date"
  end.

(** ** Prefixes of a web address *)

(** The letter g does not occur: before the end of such a prefix no
    [github.com/] can start. *)
Fixpoint g_free (s : string) : bool :=
  match s with
  | String c s' => negb (Ascii.eqb c "g") && g_free s'
  | EmptyString => true
  end.

(** ** Results of addRepo *)

(** What the catch block of [addRepo] returns for an error. *)
Definition failure (syntax_error_message : string) (e : thrown) : AddResult :=
  {| success := false; message := error_message syntax_error_message e |}.

(** What [addRepo] returns at the end of the try block. *)
Definition added : AddResult :=
  {| success := true; message := "Repository added successfully!" |}.

(** A record of the list names the repository: its [owner] and [repo]
    are these two strings. *)
Definition names (type_error_message : value -> string -> string)
    (owner repo : string) (item : value) : bool :=
  match same_repo type_error_message owner repo item with
  | Return b => b
  | Throw _ => false
  end.

(** The markup shown for an empty list. *)
Definition no_repos_markup : string :=
  "<p class=" +:+ quoted "no-repos"
    +:+ ">No repositories configured yet. Add one above!</p>".

(** ** Sample numbers *)

Definition three : SafeInteger := dexist 3 (conj eq_refl eq_refl).

Definition seven : SafeInteger := dexist 7 (conj eq_refl eq_refl).

Definition zero : SafeInteger := dexist 0 (conj eq_refl eq_refl).

(** ** Sample platform for the admin page *)

Definition widgets_ref : RepoRef := {| owner := "acme"; repo := "widgets" |}.

Definition widgets_data : value :=
  VObj [("html_url", VStr "https://github.com/acme/widgets");
        ("description", VStr "Widgets")].

Definition iso_sample (t : Z) : string := "2024-01-01T00:00:00.000Z".

Definition widgets_record : value :=
  added_record iso_sample widgets_ref
    (VStr "https://github.com/acme/widgets") (VStr "Widgets") 2123.

(** A stand-in for [JSON.stringify] and [JSON.parse] that knows the empty
    list and the list with the record above. *)
Definition stringify_sample (v : value) : string :=
  match v with
  | VArr [] => "[]"
  | _ => "[widgets]"
  end.

Definition parse_json_sample (text : string) : option value :=
  if String.eqb text "[]" then Some (VArr [])
  else if String.eqb text "[widgets]" then Some (VArr [widgets_record])
  else None.

Definition type_error_sample (v : value) (name : string) : string :=
  "Cannot read properties (reading '" +:+ name +:+ "')".

Definition page (entries : gmap string CacheEntry) (now : Z)
    (net : string -> Z -> Reply) (stored : gmap string string) : Page :=
  {| client := world entries now net; localStorage := stored;
     list_container := Some "" |}.

Definition addRepo_sample : string -> P AddResult :=
  addRepo parse_json_sample stringify_sample iso_sample "Unexpected token"
    type_error_sample.

Definition number_sample (n : Z) : string := pretty n.

Definition removeRepo_sample : string -> string -> P unit :=
  removeRepo parse_json_sample stringify_sample type_error_sample
    number_sample.

Definition loadRepoList_sample : P unit :=
  loadRepoList parse_json_sample type_error_sample number_sample.

(** * Facts *)

(** ** Strings *)

#[local] Arguments String.append !_ _ / : simpl nomatch.

Lemma length_app_s (a b : string) :
  String.length (a +:+ b) = (String.length a + String.length b)%nat.
Proof. induction a as [|x a IH]; simpl; [reflexivity | f_equal; exact IH]. Qed.

Lemma substring_whole_prefix (a b : string) :
  substring 0 (String.length a) (a +:+ b) = a.
Proof.
  induction a as [|x a IH]; simpl.
  - now destruct b.
  - f_equal; exact IH.
Qed.

Lemma consumed_app (a b : string) : Regex.consumed (a +:+ b) b = a.
Proof.
  unfold Regex.consumed. rewrite length_app_s.
  replace (String.length a + String.length b - String.length b)%nat
    with (String.length a) by lia.
  apply substring_whole_prefix.
Qed.

(** ** The matcher *)

Module RegexFacts.
Import Regex RegexAux.

Lemma span_spec a s :
  s = (span a s).1 +:+ (span a s).2
  /\ all_accepted a (span a s).1 = true
  /\ stops a (span a s).2.
Proof.
  induction s as [|c s (IH1 & IH2 & IH3)]; simpl; [done|].
  destruct (accepts a c) eqn:E; simpl.
  - rewrite E. repeat split; [congruence | done | done].
  - done.
Qed.

Lemma many1_stop {R} a s (k : string -> option R) :
  stops a s -> many1 a s k = None.
Proof. destruct s as [|c s]; simpl; [done|]. now intros ->. Qed.

(** When the rest of the pattern cannot start with an accepted character,
    the run is taken whole. *)
Lemma many1_blocked {R} a run rest (k : string -> option R) :
  run <> "" -> all_accepted a run = true -> stops a rest ->
  (forall c t, accepts a c = true -> k (String c t) = None) ->
  many1 a (run +:+ rest) k = k rest.
Proof.
  intros Hne Hall Hstop Hk. induction run as [|c run IH]; [done|].
  simpl in *. apply andb_prop in Hall as [Hc Hall]. rewrite Hc.
  destruct run as [|c' run'].
  - simpl. rewrite (many1_stop _ _ _ Hstop). reflexivity.
  - rewrite IH by done.
    destruct (k rest) eqn:E; [reflexivity|].
    simpl in Hall. apply andb_prop in Hall as [Hc' _].
    simpl. now apply Hk.
Qed.

(** When the rest of the pattern succeeds after the whole run, that is
    the match. *)
Lemma many1_longest {R} a run rest (k : string -> option R) r :
  run <> "" -> all_accepted a run = true -> stops a rest ->
  k rest = Some r ->
  many1 a (run +:+ rest) k = Some r.
Proof.
  intros Hne Hall Hstop Hk. induction run as [|c run IH]; [done|].
  simpl in *. apply andb_prop in Hall as [Hc Hall]. rewrite Hc.
  destruct run as [|c' run'].
  - simpl. rewrite (many1_stop _ _ _ Hstop). exact Hk.
  - now rewrite IH.
Qed.

Lemma strip_prefix_app p t : strip_prefix p (p +:+ t) = Some t.
Proof.
  induction p as [|x p IH]; simpl; [reflexivity|].
  now rewrite Ascii.eqb_refl.
Qed.

Lemma strip_prefix_Some p s t : strip_prefix p s = Some t -> s = p +:+ t.
Proof.
  revert s. induction p as [|x p IH]; intros s; simpl.
  - congruence.
  - destruct s as [|c s]; [done|].
    destruct (Ascii.eqb_spec c x) as [->|]; [|done].
    intros H. now rewrite (IH _ H).
Qed.

Lemma run_literal {R} lit r s caps (k : string -> list string -> option R) :
  run (literal lit r) s caps k =
  match strip_prefix lit s with
  | Some s' => run r s' caps k
  | None => None
  end.
Proof.
  revert s. induction lit as [|x lit IH]; intros s; simpl; [reflexivity|].
  destruct s as [|c s]; [reflexivity|].
  simpl. destruct (Ascii.eqb c x); [apply IH | reflexivity].
Qed.

(** [exec] returns the groups of the leftmost position with a match. *)
Lemma exec_Some r url caps :
  exec r url = Some caps ->
  exists pre s rest,
    url = pre +:+ s /\ here r s = Some (caps, rest)
    /\ forall pre' s', url = pre' +:+ s' ->
         (String.length pre' < String.length pre)%nat -> here r s' = None.
Proof.
  induction url as [|c url IH]; simpl.
  - destruct (here r "") as [[caps' rest]|] eqn:E; [|done].
    intros [= <-]. exists "", "", rest. repeat split; [done|].
    simpl. lia.
  - destruct (here r (String c url)) as [[caps' rest]|] eqn:E.
    + intros [= <-]. exists "", (String c url), rest.
      repeat split; [done|]. simpl. lia.
    + intros H. destruct (IH H) as (pre & s & rest & -> & Hs & Hleft).
      exists (String c pre), s, rest. repeat split; [done|].
      intros [|c' pre'] s' Heq Hlen; simpl in *.
      * now subst s'.
      * injection Heq as -> Heq. apply (Hleft pre' s' Heq). lia.
Qed.

Lemma exec_leftmost r pre s caps rest :
  here r s = Some (caps, rest) ->
  (forall pre' s', pre +:+ s = pre' +:+ s' ->
     (String.length pre' < String.length pre)%nat -> here r s' = None) ->
  exec r (pre +:+ s) = Some caps.
Proof.
  intros Hs. induction pre as [|c pre IH]; intros Hleft.
  - simpl. destruct s; simpl; now rewrite Hs.
  - change (String c pre +:+ s) with (String c (pre +:+ s)) in *.
    simpl. rewrite (Hleft "" (String c (pre +:+ s))) by (simpl; done || lia).
    apply IH. intros pre' s' Heq Hlen.
    apply (Hleft (String c pre') s'); simpl; [now rewrite Heq | lia].
Qed.

Lemma exec_None r url :
  (forall pre s, url = pre +:+ s -> here r s = None) -> exec r url = None.
Proof.
  induction url as [|c url IH]; intros H; simpl.
  - now rewrite (H "" "").
  - rewrite (H "" (String c url)) by done.
    apply IH. intros pre s ->. now apply (H (String c pre) s).
Qed.

Lemma exec_None_inv r url :
  exec r url = None -> forall pre s, url = pre +:+ s -> here r s = None.
Proof.
  induction url as [|c url IH]; simpl.
  - destruct (here r "") as [[caps rest]|] eqn:E; [done|].
    intros _ [|c pre] s; simpl; [now intros <- | done].
  - destruct (here r (String c url)) as [[caps rest]|] eqn:E; [done|].
    intros H [|c' pre] s; simpl.
    + now intros <-.
    + intros [= -> ->]. now apply (IH H pre s).
Qed.

End RegexFacts.

(** ** parseRepoURL *)

Lemma slash_free_accepted s :
  slash_free s = RegexAux.all_accepted (Regex.IsNot "/") s.
Proof. induction s as [|c s IH]; simpl; [reflexivity | now rewrite IH]. Qed.

Lemma stops_segment_end rest :
  RegexAux.stops (Regex.IsNot "/") rest <-> segment_end rest.
Proof.
  unfold segment_end. destruct rest as [|c t]; simpl.
  - split; auto.
  - destruct (Ascii.eqb_spec c "/") as [->|Hne]; simpl; split.
    + intros _. right. now exists t.
    + reflexivity.
    + discriminate.
    + intros [|[t' [= ? _]]]; congruence.
Qed.

Lemma here_repo_complete owner seg rest :
  segment owner -> segment seg -> segment_end rest ->
  Regex.here repo_regex ("github.com/" +:+ owner +:+ "/" +:+ seg +:+ rest)
  = Some ([owner; seg], rest).
Proof.
  intros [Ho1 Ho2] [Hs1 Hs2] Hend.
  rewrite slash_free_accepted in Ho2, Hs2.
  apply stops_segment_end in Hend.
  unfold Regex.here, repo_regex.
  rewrite RegexFacts.run_literal, RegexFacts.strip_prefix_app.
  cbn [Regex.run].
  rewrite RegexFacts.many1_blocked; [| done | done | simpl; reflexivity |].
  - change ("/" +:+ seg +:+ rest) with (String "/" (seg +:+ rest)).
    cbn [Regex.accepts]. rewrite Ascii.eqb_refl.
    rewrite (RegexFacts.many1_longest _ seg rest _ ([owner; seg], rest));
      [reflexivity | done | done | done |].
    change (String "/" (seg +:+ rest)) with ("/" +:+ seg +:+ rest).
    now rewrite !consumed_app.
  - intros c t Hc. simpl in Hc. simpl.
    destruct (Ascii.eqb c "/"); [discriminate | reflexivity].
Qed.

Lemma here_repo_sound s caps rest :
  Regex.here repo_regex s = Some (caps, rest) ->
  exists owner seg,
    caps = [owner; seg]
    /\ s = "github.com/" +:+ owner +:+ "/" +:+ seg +:+ rest
    /\ segment owner /\ segment seg /\ segment_end rest.
Proof.
  unfold Regex.here, repo_regex. rewrite RegexFacts.run_literal.
  destruct (RegexAux.strip_prefix "github.com/" s) as [s1|] eqn:Hpre; [|done].
  apply RegexFacts.strip_prefix_Some in Hpre. subst s.
  destruct (RegexFacts.span_spec (Regex.IsNot "/") s1) as (Hs1 & Hall1 & Hstop1).
  destruct (RegexAux.span (Regex.IsNot "/") s1) as [o t1]; simpl in *.
  subst s1. cbn [Regex.run].
  destruct (decide (o = "")) as [->|Ho].
  { simpl. now rewrite RegexFacts.many1_stop. }
  rewrite RegexFacts.many1_blocked; [| done | done | done |]; cycle 1.
  { intros c t Hc. simpl in Hc. simpl.
    destruct (Ascii.eqb c "/"); [discriminate | reflexivity]. }
  destruct t1 as [|c s2]; [done|].
  cbn [Regex.accepts]. destruct (Ascii.eqb_spec c "/") as [->|]; [|done].
  destruct (RegexFacts.span_spec (Regex.IsNot "/") s2) as (Hs2 & Hall2 & Hstop2).
  destruct (RegexAux.span (Regex.IsNot "/") s2) as [g t2]; simpl in *.
  subst s2.
  destruct (decide (g = "")) as [->|Hg].
  { simpl. now rewrite RegexFacts.many1_stop. }
  rewrite (RegexFacts.many1_longest _ g t2 _ ([o; g], t2));
    [| done | done | done |]; cycle 1.
  { change (String "/" (g +:+ t2)) with ("/" +:+ g +:+ t2).
    now rewrite !consumed_app. }
  intros [= <- <-]. exists o, g.
  rewrite <- !slash_free_accepted in *.
  repeat split; try done. now apply stops_segment_end.
Qed.

(** The only place where [/\.git$/] matches is a final [.git]. *)
Lemma here_git s :
  Regex.here git_regex s = if decide (s = ".git") then Some ([], "") else None.
Proof.
  unfold Regex.here, git_regex. rewrite RegexFacts.run_literal.
  destruct (RegexAux.strip_prefix ".git" s) as [t|] eqn:E.
  - apply RegexFacts.strip_prefix_Some in E. subst s.
    destruct t as [|c t]; cbn [Regex.run].
    + now rewrite decide_True.
    + rewrite decide_False; [reflexivity|].
      intros H. apply (f_equal String.length) in H.
      rewrite length_app_s in H. simpl in H. lia.
  - rewrite decide_False; [reflexivity|]. now intros ->.
Qed.

Lemma replace_git_suffix r : Regex.replace git_regex (r +:+ ".git") "" = r.
Proof.
  induction r as [|c r IH]; [reflexivity|].
  change (String c r +:+ ".git") with (String c (r +:+ ".git")).
  cbn [Regex.replace]. rewrite here_git, decide_False.
  - now rewrite IH.
  - intros H. apply (f_equal String.length) in H.
    simpl in H. rewrite length_app_s in H. simpl in H. lia.
Qed.

Lemma replace_git_other s :
  (forall r, s <> r +:+ ".git") -> Regex.replace git_regex s "" = s.
Proof.
  induction s as [|c s IH]; intros H; [reflexivity|].
  cbn [Regex.replace]. rewrite here_git, decide_False by apply (H "").
  rewrite IH; [reflexivity|].
  intros r ->. now apply (H (String c r)).
Qed.

Lemma repo_pattern_here url pre owner seg rest :
  repo_pattern_at url pre owner seg rest ->
  exists s, url = pre +:+ s /\ Regex.here repo_regex s = Some ([owner; seg], rest).
Proof.
  intros (-> & Ho & Hs & Hend). eexists. split; [reflexivity|].
  now apply here_repo_complete.
Qed.

Lemma parseRepoURL_leftmost url pre owner seg rest :
  repo_pattern_at url pre owner seg rest -> leftmost url pre ->
  parseRepoURL url
  = Return {| owner := owner; repo := Regex.replace git_regex seg "" |}.
Proof.
  intros Hat Hleft. destruct (repo_pattern_here _ _ _ _ _ Hat) as (s & -> & Hs).
  unfold parseRepoURL. rewrite (RegexFacts.exec_leftmost _ _ _ _ _ Hs); [done|].
  intros pre' s' Heq Hlen.
  destruct (Regex.here repo_regex s') as [[caps rest']|] eqn:E; [|done].
  apply here_repo_sound in E as (o & g & _ & -> & Ho & Hg & Hend).
  assert (repo_pattern_at (pre +:+ s) pre' o g rest') as Hat' by done.
  apply Hleft in Hat'. lia.
Qed.

(** C6: an input that contains [github.com/<owner>/<repo>], each of the two a
    whole path segment, parses to the owner and the repo segment of the
    leftmost such place, a final [.git] of the repo segment removed; where
    the pattern occurs at all there is a leftmost place and the method
    returns; an input that contains the pattern nowhere is refused with the
    error 'Invalid GitHub repository URL'. *)
Theorem parseRepoURL_two_segments (url : string) :
  (forall pre owner seg rest,
     repo_pattern_at url pre owner seg rest -> leftmost url pre ->
     (forall name, seg = name +:+ ".git" ->
        parseRepoURL url = Return {| owner := owner; repo := name |})
     /\ ((forall name, seg <> name +:+ ".git") ->
        parseRepoURL url = Return {| owner := owner; repo := seg |}))
  /\ ((exists pre owner seg rest, repo_pattern_at url pre owner seg rest) ->
      exists pre owner seg rest ref,
        repo_pattern_at url pre owner seg rest /\ leftmost url pre
        /\ parseRepoURL url = Return ref)
  /\ ((forall pre owner seg rest, ~ repo_pattern_at url pre owner seg rest) ->
      parseRepoURL url = Throw (JsError "Invalid GitHub repository URL")).
Proof.
  split; [|split].
  - intros pre owner seg rest Hat Hleft.
    rewrite (parseRepoURL_leftmost _ _ _ _ _ Hat Hleft). split.
    + intros name ->. now rewrite replace_git_suffix.
    + intros Hno. now rewrite replace_git_other.
  - intros (pre & owner & seg & rest & Hat).
    destruct (repo_pattern_here _ _ _ _ _ Hat) as (s & Hurl & Hs).
    destruct (Regex.exec repo_regex url) as [caps|] eqn:E.
    + apply RegexFacts.exec_Some in E as (p & s' & r & Hurl' & Hs' & Hfirst).
      apply here_repo_sound in Hs' as (o & g & -> & -> & Ho & Hg & Hend).
      assert (repo_pattern_at url p o g r) as Hat' by done.
      assert (leftmost url p) as Hleft.
      { intros p' o' g' r' Hat''.
        destruct (repo_pattern_here _ _ _ _ _ Hat'') as (s'' & Hurl'' & Hs'').
        destruct (Nat.le_gt_cases (String.length p) (String.length p'))
          as [|Hlt]; [done|].
        rewrite (Hfirst _ _ Hurl'' Hlt) in Hs''. discriminate. }
      exists p, o, g, r. eexists.
      split; [exact Hat'|]. split; [exact Hleft|].
      apply (parseRepoURL_leftmost _ _ _ _ _ Hat' Hleft).
    + rewrite (RegexFacts.exec_None_inv _ _ E _ _ Hurl) in Hs. discriminate.
  - intros Hno. unfold parseRepoURL. rewrite RegexFacts.exec_None; [done|].
    intros pre s ->.
    destruct (Regex.here repo_regex s) as [[caps rest]|] eqn:E; [|done].
    apply here_repo_sound in E as (o & g & _ & -> & Ho & Hg & Hend).
    now destruct (Hno pre o g rest).
Qed.

(** C7: on [https://github.com/acme/.git] the repo segment is [.git], all of
    it is removed as a suffix, and the method returns an empty [repo]. *)
Theorem parseRepoURL_empty_repo :
  parseRepoURL "https://github.com/acme/.git"
  = Return {| owner := "acme"; repo := "" |}.
Proof. vm_compute. reflexivity. Qed.

(** The owner is never empty, and the repo is empty only in that case. *)
Lemma parseRepoURL_fields url ref :
  parseRepoURL url = Return ref ->
  owner ref <> ""
  /\ (repo ref = "" ->
      exists pre rest, repo_pattern_at url pre (owner ref) ".git" rest).
Proof.
  unfold parseRepoURL.
  destruct (Regex.exec repo_regex url) as [caps|] eqn:E; [|done].
  apply RegexFacts.exec_Some in E as (pre & s & rest & -> & Hs & _).
  apply here_repo_sound in Hs as (o & g & -> & -> & Ho & Hg & Hend).
  intros [= <-]. simpl. split; [apply Ho|].
  intros Hempty. exists pre, rest.
  destruct (decide (g = ".git")) as [->|Hne]; [done|].
  exfalso. destruct Hg as [Hg _]. apply Hg.
  revert Hempty Hne. clear. induction g as [|c g IH]; [done|].
  cbn [Regex.replace]. rewrite here_git. intros H Hne.
  rewrite decide_False in H by done. discriminate.
Qed.

(** ** The cache *)

Ltac unfold_M :=
  unfold mbind, mret, M_bind, M_ret, try_catch, throw, get_this, Date_now,
    cache_get, cache_set, console_error in *.

Lemma getCached_unfold w key :
  getCached key w =
  (Return match cache (this w) !! key with
          | Some e =>
              if bool_decide (clock w - timestamp e < cacheTimeout (this w))
              then data e else VNull
          | None => VNull
          end, w).
Proof.
  unfold getCached. unfold_M.
  destruct (cache (this w) !! key) as [e|]; [|reflexivity].
  now destruct (bool_decide _).
Qed.

Lemma getCached_fresh w key e :
  fresh_entry w key e -> getCached key w = (Return (data e), w).
Proof.
  intros [Hin Hage]. rewrite getCached_unfold, Hin.
  now rewrite bool_decide_eq_true_2.
Qed.

Lemma getCached_not_served w key :
  ~ served_from_cache w key ->
  exists v, getCached key w = (Return v, w) /\ truthy v = false.
Proof.
  intros Hno. rewrite getCached_unfold.
  destruct (cache (this w) !! key) as [e|] eqn:Hin; [|by eexists].
  case_bool_decide as Hage; [|by eexists].
  exists (data e). split; [reflexivity|].
  destruct (truthy (data e)) eqn:Ht; [|reflexivity].
  destruct Hno. now exists e.
Qed.

(** C3: a lookup returns the payload of an entry that is younger than the
    time to live, returns null (a miss) for an entry of that age or older and
    for a key without entry, and changes nothing: the old entry stays. *)
Theorem getCached_fresh_or_miss (w : World) (key : string) :
  (getCached key w).2 = w
  /\ (forall e, cache (this w) !! key = Some e ->
        clock w - timestamp e < cacheTimeout (this w) ->
        (getCached key w).1 = Return (data e))
  /\ (forall e, cache (this w) !! key = Some e ->
        cacheTimeout (this w) <= clock w - timestamp e ->
        (getCached key w).1 = Return VNull
        /\ cache (this (getCached key w).2) !! key = Some e)
  /\ (cache (this w) !! key = None -> (getCached key w).1 = Return VNull).
Proof.
  rewrite getCached_unfold. cbn [fst snd].
  split; [reflexivity|]. split; [|split].
  - intros e -> Hage. now rewrite bool_decide_eq_true_2.
  - intros e Hin Hage. rewrite Hin.
    rewrite bool_decide_eq_false_2; [done | lia].
  - now intros ->.
Qed.

(** C4: [setCache] puts the payload under the key with the current time,
    whatever was there before, and a lookup of the key made less than the
    time to live later returns that payload. *)
Theorem setCache_then_getCached (w : World) (key : string) (v : value) :
  (setCache key v w).1 = Return tt
  /\ cache (this (setCache key v w).2)
     = <[key := {| data := v; timestamp := clock w |}]> (cache (this w))
  /\ cacheTimeout (this (setCache key v w).2) = cacheTimeout (this w)
  /\ forall w2, this w2 = this (setCache key v w).2 ->
       clock w2 - clock w < cacheTimeout (this w) ->
       (getCached key w2).1 = Return v.
Proof.
  unfold setCache. unfold_M. cbn [fst snd this cache cacheTimeout].
  repeat split.
  intros w2 Hthis Hage. rewrite getCached_unfold, Hthis. cbn.
  rewrite lookup_insert_eq. cbn. now rewrite bool_decide_eq_true_2.
Qed.

(** ** request *)

Lemma request_served w endpoint e :
  fresh_entry w endpoint e -> truthy (data e) = true ->
  request endpoint w = (Return (data e), w).
Proof.
  intros Hfresh Ht. unfold request. unfold mbind at 1. unfold M_bind.
  rewrite (getCached_fresh _ _ _ Hfresh), Ht. reflexivity.
Qed.

Lemma request_not_served w endpoint :
  ~ served_from_cache w endpoint ->
  request endpoint w = request_network endpoint w.
Proof.
  intros Hno. destruct (getCached_not_served _ _ Hno) as (v & Hv & Ht).
  unfold request. unfold mbind at 1. unfold M_bind.
  rewrite Hv, Ht. reflexivity.
Qed.

Lemma request_network_sent w endpoint :
  sent (request_network endpoint w).2 = sent w ++ [baseURL (this w) +:+ endpoint].
Proof.
  unfold request_network, fetch, response_json, setCache. unfold_M.
  destruct (result _) as [m|r]; [reflexivity|].
  destruct (ok r); [|reflexivity].
  now destruct (body r).
Qed.

Lemma request_throws_not_served w endpoint e w' :
  request endpoint w = (Throw e, w') -> ~ served_from_cache w endpoint.
Proof.
  intros H (entry & Hfresh & Ht).
  rewrite (request_served _ _ _ Hfresh Ht) in H. discriminate.
Qed.

Lemma not_served_later w w2 key :
  this w2 = this w -> clock w <= clock w2 ->
  ~ served_from_cache w key -> ~ served_from_cache w2 key.
Proof.
  intros Hthis Hclock Hno (e & [Hin Hage] & Ht). apply Hno.
  exists e. rewrite Hthis in Hin, Hage. repeat split; [done | lia | done].
Qed.

(** C1: a fresh entry with a truthy payload (every JSON object and array
    is one) is returned as it is and nothing else happens, no request is
    sent; otherwise the method requests [baseURL + endpoint], and when the
    response is a success with a JSON body it stores that body under the
    endpoint, stamped with the time of storing, and returns it. *)
Theorem request_cache_then_network (w : World) (endpoint : string) :
  (forall e, fresh_entry w endpoint e -> truthy (data e) = true ->
     request endpoint w = (Return (data e), w))
  /\ (~ served_from_cache w endpoint ->
      sent (request endpoint w).2 = sent w ++ [baseURL (this w) +:+ endpoint]
      /\ forall r v,
           result (network w (baseURL (this w) +:+ endpoint) (clock w))
             = Resolved r ->
           ok r = true -> body r = Some v ->
           (request endpoint w).1 = Return v
           /\ cache (this (request endpoint w).2)
              = <[endpoint := {| data := v;
                                 timestamp := clock (request endpoint w).2 |}]>
                  (cache (this w))).
Proof.
  split; [apply request_served|].
  intros Hno. rewrite (request_not_served _ _ Hno).
  split; [apply request_network_sent|].
  intros r v Hres Hok Hbody.
  unfold request_network, fetch, response_json, setCache. unfold_M.
  rewrite Hres. cbn. rewrite Hok. cbn. rewrite Hbody. cbn. done.
Qed.

Lemma request_network_failure w endpoint e :
  network_failure (network w (baseURL (this w) +:+ endpoint) (clock w)) e ->
  (request_network endpoint w).1 = Throw e
  /\ this (request_network endpoint w).2 = this w.
Proof.
  unfold request_network, fetch, response_json. unfold_M.
  intros [m Hres | r Hres Hok | r Hres Hok Hbody]; rewrite Hres; cbn.
  - done.
  - rewrite Hok. cbn. done.
  - rewrite Hok. cbn. rewrite Hbody. cbn. done.
Qed.

Lemma request_network_success w endpoint r v :
  result (network w (baseURL (this w) +:+ endpoint) (clock w)) = Resolved r ->
  ok r = true -> body r = Some v ->
  (request_network endpoint w).1 = Return v.
Proof.
  intros Hres Hok Hbody.
  unfold request_network, fetch, response_json, setCache. unfold_M.
  rewrite Hres. cbn. rewrite Hok. cbn. rewrite Hbody. cbn. done.
Qed.

(** C2: when the cache does not answer and the network call fails, by a
    rejected [fetch] or by a response whose status is not a success (or by a
    body that is no JSON), [request] throws the error of that failure and the
    object, its cache included, is as it was before the call.  A later call
    for the same endpoint on that cache is not answered from the cache: it
    sends the request again and, when the network then succeeds, returns the
    fresh payload. *)
Theorem request_failure_not_cached
    (w : World) (endpoint : string) (e : thrown) :
  ~ served_from_cache w endpoint ->
  network_failure (network w (baseURL (this w) +:+ endpoint) (clock w)) e ->
  (request endpoint w).1 = Throw e
  /\ this (request endpoint w).2 = this w
  /\ sent (request endpoint w).2 = sent w ++ [baseURL (this w) +:+ endpoint]
  /\ forall w2, this w2 = this (request endpoint w).2 -> clock w <= clock w2 ->
       sent (request endpoint w2).2
       = sent w2 ++ [baseURL (this w) +:+ endpoint]
       /\ forall r v,
            result (network w2 (baseURL (this w) +:+ endpoint) (clock w2))
              = Resolved r ->
            ok r = true -> body r = Some v ->
            (request endpoint w2).1 = Return v.
Proof.
  intros Hno Hfail. rewrite (request_not_served _ _ Hno).
  destruct (request_network_failure _ _ _ Hfail) as [Hthrow Hthis].
  split; [exact Hthrow|]. split; [exact Hthis|].
  split; [apply request_network_sent|].
  intros w2 Hthis2 Hclock.
  assert (this w2 = this w) as Hsame by congruence.
  assert (~ served_from_cache w2 endpoint) as Hno2.
  { now apply (not_served_later w). }
  rewrite (request_not_served _ _ Hno2). split.
  - rewrite request_network_sent. now rewrite Hsame.
  - intros r v Hres Hok Hbody.
    apply (request_network_success _ _ r); [|done..].
    now rewrite Hsame.
Qed.

(** C5: when the cache does not answer and the response has a status outside
    200-299, [request] throws an error whose message ends in the decimal
    status, so that two different statuses give two different errors; when
    [fetch] rejects, it throws that rejection. *)
Theorem request_error_kinds (w : World) (endpoint : string) :
  ~ served_from_cache w endpoint ->
  (forall r,
     result (network w (baseURL (this w) +:+ endpoint) (clock w)) = Resolved r ->
     ok r = false ->
     (request endpoint w).1
     = Throw (JsError ("GitHub API error: " +:+ pretty (status r))))
  /\ (forall m,
        result (network w (baseURL (this w) +:+ endpoint) (clock w))
          = Rejected m ->
        (request endpoint w).1 = Throw (TypeError m))
  /\ (forall s1 s2 : N,
        JsError ("GitHub API error: " +:+ pretty s1)
        = JsError ("GitHub API error: " +:+ pretty s2) ->
        s1 = s2)
  /\ (forall (s : N) m, JsError ("GitHub API error: " +:+ pretty s) <> TypeError m).
Proof.
  intros Hno. rewrite (request_not_served _ _ Hno).
  unfold request_network, fetch. unfold_M. split; [|split; [|split]].
  - intros r -> Hok. cbn. rewrite Hok. reflexivity.
  - intros m ->. reflexivity.
  - intros s1 s2 [= H]. now apply (inj pretty).
  - discriminate.
Qed.

(** ** Status classification *)

Lemma is_string_spec v literal : is_string v literal = true <-> v = VStr literal.
Proof.
  destruct v; simpl; try (split; [discriminate | congruence]).
  rewrite String.eqb_eq. split; congruence.
Qed.

Lemma is_string_neq v literal : v <> VStr literal -> is_string v literal = false.
Proof.
  intros H. destruct (is_string v literal) eqn:E; [|reflexivity].
  now apply is_string_spec in E.
Qed.

(** C8: a status [in_progress] or [queued] wins over the conclusion; then
    the conclusions [success], [failure] and [cancelled] give their own class
    and label; any other conclusion gives the status itself when it is
    truthy, and ['queued'] and ['Unknown'] when it is absent or an empty
    string. *)
Theorem status_precedence (conclusion status : value) :
  (status = VStr "in_progress" ->
     getStatusClass conclusion status = VStr "in_progress"
     /\ getStatusText conclusion status = VStr "In Progress")
  /\ (status = VStr "queued" ->
      getStatusClass conclusion status = VStr "queued"
      /\ getStatusText conclusion status = VStr "Queued")
  /\ (status <> VStr "in_progress" -> status <> VStr "queued" ->
      (conclusion = VStr "success" ->
         getStatusClass conclusion status = VStr "success"
         /\ getStatusText conclusion status = VStr "Success")
      /\ (conclusion = VStr "failure" ->
          getStatusClass conclusion status = VStr "failure"
          /\ getStatusText conclusion status = VStr "Failure")
      /\ (conclusion = VStr "cancelled" ->
          getStatusClass conclusion status = VStr "cancelled"
          /\ getStatusText conclusion status = VStr "Cancelled")
      /\ (conclusion <> VStr "success" -> conclusion <> VStr "failure" ->
          conclusion <> VStr "cancelled" ->
          (truthy status = true ->
             getStatusClass conclusion status = status
             /\ getStatusText conclusion status = status)
          /\ (truthy status = false ->
              getStatusClass conclusion status = VStr "queued"
              /\ getStatusText conclusion status = VStr "Unknown"))).
Proof.
  split; [|split].
  - now intros ->.
  - now intros ->.
  - intros H1 H2. unfold getStatusClass, getStatusText.
    rewrite !(is_string_neq status) by done. cbn [orb].
    split; [|split; [|split]].
    + now intros ->.
    + now intros ->.
    + now intros ->.
    + intros H3 H4 H5. rewrite !(is_string_neq conclusion) by done.
      split; now intros ->.
Qed.

(** ** Relative time *)

Section DateFacts.

Variable Date_parse : string -> number.
Variable toLocaleDateString : number -> string.

Abbreviation formatDate := (formatDate Date_parse toLocaleDateString).

Lemma formatDate_unfold w dateString t :
  Date_parse dateString = Some t ->
  formatDate dateString w =
  (Return
     (if clock w - t <? 60000 then "just now"
      else if clock w - t <? 3600000 then ago ((clock w - t) / 60000) "minute"
      else if clock w - t <? 86400000 then ago ((clock w - t) / 3600000) "hour"
      else if clock w - t <? 604800000 then ago ((clock w - t) / 86400000) "day"
      else toLocaleDateString (Some t)), w).
Proof.
  intros Hparse. unfold formatDate. unfold_M. rewrite Hparse.
  cbn [num_sub floor_div num_lt num_gt num_to_string].
  set (d := clock w - t).
  assert (forall c q, 0 < c -> (d / c <? q) = (d <? c * q)) as Hdiv.
  { intros c q Hc. destruct (Z.ltb_spec (d / c) q), (Z.ltb_spec d (c * q));
      try reflexivity; exfalso.
    - apply (Z.div_le_lower_bound d c q) in H0; lia.
    - apply (Z.div_lt_upper_bound d c q) in H0; lia. }
  rewrite !Hdiv by lia. cbn [Z.mul Pos.mul Pos.add].
  unfold ago.
  repeat match goal with
         | |- context [bool_decide (1 < ?n)] =>
             change (bool_decide (1 < n)) with (bool_decide (Z.lt 1 n));
             destruct (Z.ltb_spec 1 n);
             [rewrite (bool_decide_eq_true_2 (1 < n)) by done
             |rewrite (bool_decide_eq_false_2 (1 < n)) by lia]
         end;
    repeat destruct (_ <? _); reflexivity.
Qed.

(** C9: for a time in the past the age in milliseconds is cut into whole
    minutes, hours and days by floor division: under a minute 'just now',
    under an hour the minutes, under a day the hours, under seven days the
    days, from seven days on the locale's date; an age of exactly sixty
    minutes reads '1 hour ago'. *)
Theorem formatDate_buckets (w : World) (dateString : string) (t : Z) :
  Date_parse dateString = Some t -> t < clock w ->
  (clock w - t < 60000 ->
     formatDate dateString w = (Return "just now", w))
  /\ (60000 <= clock w - t < 3600000 ->
      formatDate dateString w
      = (Return (ago ((clock w - t) / 60000) "minute"), w))
  /\ (3600000 <= clock w - t < 86400000 ->
      formatDate dateString w
      = (Return (ago ((clock w - t) / 3600000) "hour"), w))
  /\ (86400000 <= clock w - t < 604800000 ->
      formatDate dateString w
      = (Return (ago ((clock w - t) / 86400000) "day"), w))
  /\ (604800000 <= clock w - t ->
      formatDate dateString w = (Return (toLocaleDateString (Some t)), w))
  /\ (clock w - t = 3600000 ->
      formatDate dateString w = (Return "1 hour ago", w)).
Proof.
  intros Hparse Hpast. rewrite (formatDate_unfold _ _ _ Hparse).
  split; [|split; [|split; [|split; [|split]]]]; intros H.
  6: { rewrite H. reflexivity. }
  all: repeat match goal with
              | |- context [?a <? ?b] => destruct (Z.ltb_spec a b); try lia
              end;
    reflexivity.
Qed.

(** C10: a time that is the present or lies ahead reads 'just now'. *)
Theorem formatDate_future (w : World) (dateString : string) (t : Z) :
  Date_parse dateString = Some t -> clock w <= t ->
  formatDate dateString w = (Return "just now", w).
Proof.
  intros Hparse Hfuture. rewrite (formatDate_unfold _ _ _ Hparse).
  destruct (Z.ltb_spec (clock w - t) 60000); [reflexivity | lia].
Qed.

End DateFacts.

(** * Further properties *)

(** ** What a call of request leaves alone *)

Lemma request_network_frame w endpoint :
  baseURL (this (request_network endpoint w).2) = baseURL (this w)
  /\ cacheTimeout (this (request_network endpoint w).2) = cacheTimeout (this w)
  /\ (cache (this (request_network endpoint w).2) = cache (this w)
      \/ exists v,
           (request_network endpoint w).1 = Return v
           /\ cache (this (request_network endpoint w).2)
              = <[endpoint := {| data := v;
                                 timestamp := clock (request_network endpoint w).2 |}]>
                  (cache (this w))).
Proof.
  unfold request_network, fetch, response_json, setCache. unfold_M.
  destruct (result _) as [m|r]; cbn; [auto|].
  destruct (ok r); cbn; [|auto].
  destruct (body r) as [v|]; cbn; [|auto].
  split; [done|]. split; [done|]. right. now exists v.
Qed.

Lemma request_unfold w endpoint :
  request endpoint w =
  let cached :=
    match cache (this w) !! endpoint with
    | Some e =>
        if bool_decide (clock w - timestamp e < cacheTimeout (this w))
        then data e else VNull
    | None => VNull
    end in
  if truthy cached then (Return cached, w) else request_network endpoint w.
Proof.
  unfold request. unfold mbind at 1. unfold M_bind.
  rewrite getCached_unfold. cbn zeta.
  destruct (truthy _); reflexivity.
Qed.

Lemma request_cases w endpoint :
  request endpoint w = request_network endpoint w
  \/ exists v, request endpoint w = (Return v, w).
Proof.
  rewrite request_unfold. cbn zeta.
  destruct (truthy _); [right; eexists; reflexivity | left; reflexivity].
Qed.

Lemma request_keeps cache_before w endpoint :
  cache_before = cache (this w) ->
  baseURL (this (request endpoint w).2) = baseURL (this w)
  /\ cacheTimeout (this (request endpoint w).2) = cacheTimeout (this w)
  /\ (forall key, key <> endpoint ->
        cache (this (request endpoint w).2) !! key = cache_before !! key)
  /\ (forall key, is_Some (cache_before !! key) ->
        is_Some (cache (this (request endpoint w).2) !! key)).
Proof.
  intros ->.
  destruct (request_cases w endpoint) as [-> | [v ->]]; [|done].
  destruct (request_network_frame w endpoint) as (Hb & Ht & [-> | (v & _ & ->)]).
  - done.
  - split; [done|]. split; [done|]. split.
    + intros key Hne. now rewrite lookup_insert_ne.
    + intros key Hsome. destruct (decide (endpoint = key)) as [->|Hne].
      * rewrite lookup_insert_eq. eauto.
      * now rewrite lookup_insert_ne.
Qed.

(** X1: whatever its outcome, a call of [request] keeps [baseURL] and
    [cacheTimeout], keeps the entry of every other key as it is, and removes
    no entry. *)
Theorem request_frame (w : World) (endpoint : string) :
  baseURL (this (request endpoint w).2) = baseURL (this w)
  /\ cacheTimeout (this (request endpoint w).2) = cacheTimeout (this w)
  /\ (forall key, key <> endpoint ->
        cache (this (request endpoint w).2) !! key = cache (this w) !! key)
  /\ (forall key, is_Some (cache (this w) !! key) ->
        is_Some (cache (this (request endpoint w).2) !! key)).
Proof.
  destruct (request_cases w endpoint) as [-> | [v ->]]; [|done].
  destruct (request_network_frame w endpoint)
    as (Hbase & Htimeout & [-> | (v & _ & ->)]); [done|].
  split; [exact Hbase|]. split; [exact Htimeout|]. split.
  - intros key Hne. apply lookup_insert_ne. congruence.
  - intros key [e He]. destruct (decide (key = endpoint)) as [->|Hne].
    + rewrite lookup_insert_eq. eauto.
    + rewrite lookup_insert_ne by congruence. eauto.
Qed.

(** X2: a call of [request] sends nothing or exactly its own URL, and
    writes to the console exactly the error it throws and nothing when it
    returns. *)
Theorem request_effects (w : World) (endpoint : string) :
  (sent (request endpoint w).2 = sent w
   \/ sent (request endpoint w).2 = sent w ++ [baseURL (this w) +:+ endpoint])
  /\ (forall v, (request endpoint w).1 = Return v ->
        console (request endpoint w).2 = console w)
  /\ (forall e, (request endpoint w).1 = Throw e ->
        console (request endpoint w).2 = console w ++ [e]).
Proof.
  destruct (request_cases w endpoint) as [-> | [v ->]]; cbn [fst snd].
  - split; [right; apply request_network_sent|].
    unfold request_network, fetch, response_json, setCache. unfold_M.
    destruct (result _) as [m|r]; cbn.
    { split; [done | congruence]. }
    destruct (ok r); cbn.
    2: { split; [done | congruence]. }
    destruct (body r); cbn; (split; [done | congruence]).
  - split; [now left|]. split; done.
Qed.

(** ** A stored answer *)

Lemma request_fetched w endpoint v w1 :
  ~ served_from_cache w endpoint ->
  request endpoint w = (Return v, w1) ->
  cache (this w1) !! endpoint = Some {| data := v; timestamp := clock w1 |}
  /\ cacheTimeout (this w1) = cacheTimeout (this w)
  /\ baseURL (this w1) = baseURL (this w).
Proof.
  intros Hno H. rewrite (request_not_served _ _ Hno) in H. revert H.
  unfold request_network, fetch, response_json, setCache. unfold_M.
  destruct (result _) as [m|r]; cbn; [done|].
  destruct (ok r); cbn; [|done].
  destruct (body r) as [v'|]; cbn; [|done].
  intros [= -> <-]. cbn. now rewrite lookup_insert_eq.
Qed.

(** X3: once a call has fetched a truthy payload and stored it, a call for
    the same endpoint on that cache returns the payload and does nothing
    else while less than the time to live has passed since storing, and
    sends the request again from then on. *)
Theorem request_after_store
    (w w1 : World) (endpoint : string) (v : value) :
  ~ served_from_cache w endpoint ->
  request endpoint w = (Return v, w1) ->
  truthy v = true ->
  forall w2, this w2 = this w1 ->
    (clock w2 - clock w1 < cacheTimeout (this w) ->
       request endpoint w2 = (Return v, w2))
    /\ (cacheTimeout (this w) <= clock w2 - clock w1 ->
        sent (request endpoint w2).2
        = sent w2 ++ [baseURL (this w) +:+ endpoint]).
Proof.
  intros Hno Hreq Hv w2 Hthis.
  destruct (request_fetched _ _ _ _ Hno Hreq) as (Hin & Ht & Hb).
  split.
  - intros Hage.
    apply (request_served w2 endpoint {| data := v; timestamp := clock w1 |});
      [|exact Hv].
    split; rewrite Hthis; [exact Hin | cbn; lia].
  - intros Hage.
    assert (~ served_from_cache w2 endpoint) as Hno2.
    { intros (e & [Hin2 Hage2] & _). rewrite Hthis, Hin in Hin2.
      injection Hin2 as <-. rewrite Hthis in Hage2. cbn in Hage2. lia. }
    rewrite (request_not_served _ _ Hno2), request_network_sent.
    now rewrite Hthis, Hb.
Qed.

(** ** Cache keys of the accessors *)

Lemma slash_free_app a b :
  slash_free (a +:+ b) = slash_free a && slash_free b.
Proof.
  induction a as [|c a IH]; [reflexivity|].
  cbn. rewrite IH. now rewrite andb_assoc.
Qed.

Lemma slash_split_unique a1 b1 a2 b2 :
  slash_free a1 = true -> slash_free a2 = true ->
  a1 +:+ String "/" b1 = a2 +:+ String "/" b2 ->
  a1 = a2 /\ b1 = b2.
Proof.
  revert a2. induction a1 as [|c a1 IH]; intros [|c2 a2]; cbn.
  - intros _ _ [= ->]. done.
  - intros _ H [= <- _]. done.
  - intros H _ [= -> _]. done.
  - intros H1 H2 [= -> Heq].
    apply andb_prop in H1 as [_ H1]. apply andb_prop in H2 as [_ H2].
    destruct (IH a2 H1 H2 Heq) as [-> ->]. done.
Qed.

Lemma pretty_N_go_slash_free x s :
  slash_free s = true -> slash_free (pretty_N_go x s) = true.
Proof.
  revert s. induction (N.lt_wf_0 x) as [x _ IH]; intros s Hs.
  assert (x = 0 \/ 0 < x)%N as [->|Hpos] by lia.
  - now rewrite pretty_N_go_0.
  - rewrite pretty_N_go_step by done. apply IH.
    { now apply N.div_lt. }
    cbn. rewrite Hs. unfold pretty_N_char. now repeat case_match.
Qed.

Lemma pretty_slash_free (z : Z) : slash_free (pretty z) = true.
Proof.
  assert (forall n : N, slash_free (pretty n) = true) as HN.
  { intros n. unfold pretty, pretty_N. case_decide; [reflexivity|].
    now apply pretty_N_go_slash_free. }
  destruct z as [|p|p]; [reflexivity | apply HN |].
  unfold pretty, pretty_Z. rewrite slash_free_app. cbn. apply HN.
Qed.

Lemma integer_text_inj (n m : SafeInteger) :
  integer_text n = integer_text m -> n = m.
Proof.
  unfold integer_text. intros H. apply dsig_eq. now apply (inj pretty).
Qed.

Lemma integer_text_slash_free (n : SafeInteger) :
  slash_free (integer_text n) = true.
Proof. apply pretty_slash_free. Qed.

(** X4: for owners and repos without a slash, as [parseRepoURL] returns
    them, and workflow ids and page sizes that are safe integers, the cache
    key of an accessor call determines its arguments: two calls of one
    accessor share a key only when they are the same call. *)
Theorem endpoint_determines_call (o1 r1 o2 r2 : string) :
  slash_free o1 = true -> slash_free o2 = true ->
  slash_free r1 = true -> slash_free r2 = true ->
  (repository_endpoint o1 r1 = repository_endpoint o2 r2 ->
     o1 = o2 /\ r1 = r2)
  /\ (workflows_endpoint o1 r1 = workflows_endpoint o2 r2 ->
      o1 = o2 /\ r1 = r2)
  /\ (forall id1 p1 id2 p2 : SafeInteger,
        workflow_runs_endpoint o1 r1 id1 p1
        = workflow_runs_endpoint o2 r2 id2 p2 ->
        o1 = o2 /\ r1 = r2 /\ id1 = id2 /\ p1 = p2)
  /\ (forall p1 p2 : SafeInteger,
        recent_runs_endpoint o1 r1 p1 = recent_runs_endpoint o2 r2 p2 ->
        o1 = o2 /\ r1 = r2 /\ p1 = p2).
Proof.
  intros Ho1 Ho2 Hr1 Hr2.
  unfold repository_endpoint, workflows_endpoint, workflow_runs_endpoint,
    recent_runs_endpoint.
  split; [|split; [|split]].
  - intros H. apply (inj (String.app _)) in H.
    now apply slash_split_unique in H.
  - intros H. apply (inj (String.app _)) in H.
    apply slash_split_unique in H as [-> H]; [|done..].
    now apply slash_split_unique in H as [-> _].
  - intros id1 p1 id2 p2 H. apply (inj (String.app _)) in H.
    apply slash_split_unique in H as [-> H]; [|done..].
    apply slash_split_unique in H as [-> H]; [|done..].
    apply (inj (String.app "actions/workflows/")) in H.
    apply slash_split_unique in H as [Hid H];
      [|apply integer_text_slash_free..].
    apply integer_text_inj in Hid.
    apply (inj (String.app "runs?per_page=")), integer_text_inj in H. done.
  - intros p1 p2 H. apply (inj (String.app _)) in H.
    apply slash_split_unique in H as [-> H]; [|done..].
    apply slash_split_unique in H as [-> H]; [|done..].
    apply (inj (String.app "actions/runs?per_page=")), integer_text_inj in H.
    done.
Qed.

(** X5: for owners and repos without a slash, calls of two different
    accessors never share a cache key. *)
Theorem endpoints_of_accessors_differ
    (o1 r1 o2 r2 : string) (id p q : SafeInteger) :
  slash_free o1 = true -> slash_free o2 = true ->
  slash_free r1 = true -> slash_free r2 = true ->
  repository_endpoint o1 r1 <> workflows_endpoint o2 r2
  /\ repository_endpoint o1 r1 <> workflow_runs_endpoint o2 r2 id p
  /\ repository_endpoint o1 r1 <> recent_runs_endpoint o2 r2 q
  /\ workflows_endpoint o1 r1 <> workflow_runs_endpoint o2 r2 id p
  /\ workflows_endpoint o1 r1 <> recent_runs_endpoint o2 r2 q
  /\ workflow_runs_endpoint o1 r1 id p <> recent_runs_endpoint o2 r2 q.
Proof.
  intros Ho1 Ho2 Hr1 Hr2.
  assert (forall t, r1 <> r2 +:+ String "/" t) as Hlong.
  { intros t ->. rewrite slash_free_app in Hr1. cbn in Hr1.
    now rewrite andb_false_r in Hr1. }
  unfold repository_endpoint, workflows_endpoint, workflow_runs_endpoint,
    recent_runs_endpoint.
  repeat split; intros H; apply (inj (String.app _)) in H;
    apply slash_split_unique in H as [-> H]; try done.
  1-3: now apply Hlong in H.
  all: apply slash_split_unique in H as [-> H]; try done; discriminate H.
Qed.

(** X6: run lists are cached apart by page size: with page sizes that are
    safe integers, a call of [getWorkflowRuns] or [getRecentWorkflowRuns]
    with one page size leaves the entry of every other page size as it is,
    and a call without page size is the call with 5, respectively 10. *)
Theorem page_sizes_cached_apart
    (w : World) (o r : string) (id p1 p2 : SafeInteger) :
  p1 <> p2 ->
  cache (this (getWorkflowRuns o r id (Some p1) w).2)
    !! workflow_runs_endpoint o r id p2
  = cache (this w) !! workflow_runs_endpoint o r id p2
  /\ cache (this (getRecentWorkflowRuns o r (Some p1) w).2)
       !! recent_runs_endpoint o r p2
     = cache (this w) !! recent_runs_endpoint o r p2
  /\ getWorkflowRuns o r id None = getWorkflowRuns o r id (Some five)
  /\ getRecentWorkflowRuns o r None = getRecentWorkflowRuns o r (Some ten).
Proof.
  intros Hne. unfold getWorkflowRuns, getRecentWorkflowRuns. cbn [default].
  split; [|split; [|done]].
  - apply (request_keeps _ w _ eq_refl).
    unfold workflow_runs_endpoint. intros H.
    do 6 apply (inj (String.app _)) in H.
    apply (inj (String.app "/runs?per_page=")), integer_text_inj in H.
    cbn in H. congruence.
  - apply (request_keeps _ w _ eq_refl).
    unfold recent_runs_endpoint. intros H.
    do 4 apply (inj (String.app _)) in H.
    apply (inj (String.app "/actions/runs?per_page=")), integer_text_inj in H.
    cbn in H. congruence.
Qed.

(** ** More on parseRepoURL *)

Lemma replace_git_slash_free s :
  slash_free s = true -> slash_free (Regex.replace git_regex s "") = true.
Proof.
  induction s as [|c s IH]; [done|].
  cbn [Regex.replace]. rewrite here_git.
  case_decide; [done|].
  cbn. intros [Hc Hs]%andb_prop. rewrite Hc. now apply IH.
Qed.

Lemma parseRepoURL_shape url ref :
  parseRepoURL url = Return ref ->
  segment (owner ref) /\ slash_free (repo ref) = true.
Proof.
  unfold parseRepoURL.
  destruct (Regex.exec repo_regex url) as [caps|] eqn:E; [|done].
  apply RegexFacts.exec_Some in E as (pre & s & rest & -> & Hs & _).
  apply here_repo_sound in Hs as (o & g & -> & -> & Ho & [_ Hg] & Hend).
  intros [= <-]. cbn. split; [exact Ho|]. now apply replace_git_slash_free.
Qed.

(** X7: whatever [parseRepoURL] returns has an owner that is a non-empty
    path segment and a repo without a slash. *)
Theorem parseRepoURL_segments (url : string) (ref : RepoRef) :
  parseRepoURL url = Return ref ->
  segment (owner ref) /\ slash_free (repo ref) = true.
Proof.
  unfold parseRepoURL.
  destruct (Regex.exec repo_regex url) as [caps|] eqn:E; [|done].
  apply RegexFacts.exec_Some in E as (pre & s & rest & _ & Hs & _).
  apply here_repo_sound in Hs as (o & g & -> & _ & Ho & [_ Hg] & _).
  intros [= <-]. cbn. split; [exact Ho|].
  now apply replace_git_slash_free.
Qed.

(** X8: two inputs that [parseRepoURL] accepts and that lead to the same
    cache key in [getRepository] name the same owner and repo. *)
Theorem parsed_refs_have_own_keys (url1 url2 : string) (ref1 ref2 : RepoRef) :
  parseRepoURL url1 = Return ref1 -> parseRepoURL url2 = Return ref2 ->
  repository_endpoint (owner ref1) (repo ref1)
  = repository_endpoint (owner ref2) (repo ref2) ->
  ref1 = ref2.
Proof.
  intros H1 H2 Hkey.
  apply parseRepoURL_shape in H1 as [[_ Ho1] Hr1].
  apply parseRepoURL_shape in H2 as [[_ Ho2] Hr2].
  unfold repository_endpoint in Hkey.
  apply (inj (String.app _)) in Hkey.
  apply slash_split_unique in Hkey as [Ho Hr]; [|done..].
  destruct ref1, ref2. cbn in *. congruence.
Qed.

Lemma app_empty_r (a : string) : a +:+ "" = a.
Proof. induction a as [|x a IH]; cbn; [reflexivity | f_equal; exact IH]. Qed.

Lemma g_free_leftmost pre tail :
  g_free pre = true -> leftmost (pre +:+ tail) pre.
Proof.
  intros Hg pre' o g r [Heq _].
  destruct (Nat.le_gt_cases (String.length pre) (String.length pre'))
    as [|Hlt]; [done|exfalso].
  revert pre' Hg Heq Hlt. induction pre as [|c pre IH]; intros pre' Hg Heq Hlt.
  - cbn in Hlt. lia.
  - cbn in Hg. apply andb_prop in Hg as [Hc Hg].
    destruct pre' as [|c' pre']; cbn in Heq.
    + injection Heq as -> _. discriminate Hc.
    + injection Heq as _ Heq. apply (IH pre' Hg Heq). cbn in Hlt. lia.
Qed.

(** X9: the web address of a repository parses back to its owner and repo:
    after any prefix without the letter g, [github.com/owner/name.git] gives
    the owner and the name, and [github.com/owner/name], alone or followed
    by a slash and more, gives them too when the name does not end in
    [.git]. *)
Theorem parseRepoURL_web_address (pre o name : string) :
  g_free pre = true -> segment o -> slash_free name = true ->
  parseRepoURL (pre +:+ "github.com/" +:+ o +:+ "/" +:+ name +:+ ".git")
  = Return {| owner := o; repo := name |}
  /\ (name <> "" -> (forall n, name <> n +:+ ".git") ->
      forall rest, segment_end rest ->
        parseRepoURL (pre +:+ "github.com/" +:+ o +:+ "/" +:+ name +:+ rest)
        = Return {| owner := o; repo := name |}).
Proof.
  intros Hpre Ho Hname. split.
  - rewrite (parseRepoURL_leftmost _ pre o (name +:+ ".git") "").
    + now rewrite replace_git_suffix.
    + split; [now rewrite app_empty_r|]. split; [done|]. split; [|now left].
      split; [now destruct name|].
      rewrite slash_free_app, Hname. reflexivity.
    + now apply g_free_leftmost.
  - intros Hne Hgit rest Hrest.
    rewrite (parseRepoURL_leftmost _ pre o name rest).
    + now rewrite replace_git_other.
    + done.
    + now apply g_free_leftmost.
Qed.

(** ** More on the status *)

(** X10: class and label are never falsy, whatever the run record holds, and
    they are non-empty strings when the status is a string or is missing. *)
Theorem status_never_empty (conclusion status : value) :
  truthy (getStatusClass conclusion status) = true
  /\ truthy (getStatusText conclusion status) = true
  /\ ((status = VNull \/ status = VUndefined \/ exists s, status = VStr s) ->
      exists class label,
        getStatusClass conclusion status = VStr class
        /\ getStatusText conclusion status = VStr label
        /\ class <> "" /\ label <> "").
Proof.
  assert (forall v lit, is_string v lit = true -> v = VStr lit) as Hstr.
  { intros v lit. apply is_string_spec. }
  unfold getStatusClass, getStatusText.
  destruct (is_string status "in_progress") eqn:E1.
  { apply Hstr in E1 as ->. cbn. repeat split; try done. intros _.
    eexists _, _. repeat split; done. }
  destruct (is_string status "queued") eqn:E2.
  { apply Hstr in E2 as ->. cbn. repeat split; try done. intros _.
    eexists _, _. repeat split; done. }
  cbn [orb].
  destruct (is_string conclusion "success").
  { repeat split; try done. intros _. eexists _, _. repeat split; done. }
  destruct (is_string conclusion "failure").
  { repeat split; try done. intros _. eexists _, _. repeat split; done. }
  destruct (is_string conclusion "cancelled").
  { repeat split; try done. intros _. eexists _, _. repeat split; done. }
  destruct (truthy status) eqn:Ht.
  - repeat split; try done.
    intros [-> | [-> | [s ->]]]; try discriminate Ht.
    exists s, s. cbn in Ht. repeat split; try done;
      intros ->; discriminate Ht.
  - repeat split; try done. intros _. eexists _, _. repeat split; done.
Qed.

(** ** More on relative time *)

Section MoreDateFacts.

Variable Date_parse : string -> number.
Variable toLocaleDateString : number -> string.

Abbreviation formatDate' := (formatDate Date_parse toLocaleDateString).

(** X11: the unit is singular exactly in its first interval: from one to
    under two minutes, hours or days the phrase is '1 minute ago', '1 hour
    ago', '1 day ago'; later in each bucket it is a count from 2 up to 59,
    23 or 6 with the plural. *)
Theorem formatDate_singular_plural (w : World) (dateString : string) (t : Z) :
  Date_parse dateString = Some t ->
  (60000 <= clock w - t < 120000 ->
     formatDate' dateString w = (Return "1 minute ago", w))
  /\ (120000 <= clock w - t < 3600000 ->
      exists n, 2 <= n <= 59
        /\ formatDate' dateString w = (Return (pretty n +:+ " minutes ago"), w))
  /\ (3600000 <= clock w - t < 7200000 ->
      formatDate' dateString w = (Return "1 hour ago", w))
  /\ (7200000 <= clock w - t < 86400000 ->
      exists n, 2 <= n <= 23
        /\ formatDate' dateString w = (Return (pretty n +:+ " hours ago"), w))
  /\ (86400000 <= clock w - t < 172800000 ->
      formatDate' dateString w = (Return "1 day ago", w))
  /\ (172800000 <= clock w - t < 604800000 ->
      exists n, 2 <= n <= 6
        /\ formatDate' dateString w = (Return (pretty n +:+ " days ago"), w)).
Proof.
  intros Hparse. rewrite (formatDate_unfold _ _ _ _ _ Hparse).
  set (d := clock w - t).
  assert (forall c lo hi, 0 < c -> c * lo <= d < c * (hi + 1) -> lo <= d / c <= hi)
    as Hdiv.
  { intros c lo hi Hc [Hlo Hhi]. split.
    - now apply Z.div_le_lower_bound.
    - apply Z.lt_succ_r. now apply Z.div_lt_upper_bound. }
  assert (forall n unit, 2 <= n -> ago n unit = pretty n +:+ " " +:+ unit +:+ "s ago")
    as Hplural.
  { intros n unit Hn. unfold ago. now rewrite bool_decide_eq_true_2 by lia. }
  split; [|split; [|split; [|split; [|split]]]]; intros H;
    repeat match goal with
           | |- context [?a <? ?b] => destruct (Z.ltb_spec a b); try lia
           end.
  - replace (d / 60000) with 1 by (pose proof (Hdiv 60000 1 1); lia).
    reflexivity.
  - exists (d / 60000). split; [apply Hdiv; lia|].
    rewrite Hplural by (apply Hdiv with (hi := 59); lia). reflexivity.
  - replace (d / 3600000) with 1 by (pose proof (Hdiv 3600000 1 1); lia).
    reflexivity.
  - exists (d / 3600000). split; [apply Hdiv; lia|].
    rewrite Hplural by (apply Hdiv with (hi := 23); lia). reflexivity.
  - replace (d / 86400000) with 1 by (pose proof (Hdiv 86400000 1 1); lia).
    reflexivity.
  - exists (d / 86400000). split; [apply Hdiv; lia|].
    rewrite Hplural by (apply Hdiv with (hi := 6); lia). reflexivity.
Qed.

(** X12: a string that is no date falls through every bucket, NaN being
    under no bound: the result is the locale's rendering of the invalid
    date, never a phrase with NaN in it. *)
Theorem formatDate_invalid (w : World) (dateString : string) :
  Date_parse dateString = NaN ->
  formatDate' dateString w = (Return (toLocaleDateString NaN), w).
Proof.
  intros Hparse. unfold formatDate. unfold_M. rewrite Hparse. reflexivity.
Qed.

End MoreDateFacts.

(** ** The repository list of the admin page *)

Section AdminFacts.

Variable JSON_parse : string -> option value.
Variable JSON_stringify : value -> string.
Variable toISOString : Z -> string.
Variable syntax_error_message : string.
Variable type_error_message : value -> string -> string.
Variable number_text : Z -> string.

Abbreviation getRepos' := (getRepos JSON_parse).
Abbreviation Dashboard_getRepos' := (Dashboard_getRepos JSON_parse).
Abbreviation same_repo' := (same_repo type_error_message).
Abbreviation array_some' := (array_some type_error_message).
Abbreviation array_push' := (array_push type_error_message).
Abbreviation get_property' := (get_property type_error_message).
Abbreviation added_record' := (added_record toISOString).
Abbreviation addRepo' :=
  (addRepo JSON_parse JSON_stringify toISOString syntax_error_message
     type_error_message).

Abbreviation failed := (failure syntax_error_message).

Ltac unfold_P :=
  unfold mbind, mret, P_bind, P_ret, catch, of_outcome, lift, getItem,
    setItem, saveRepos in *.

Lemma getRepos_unfold p :
  getRepos' p =
  (match localStorage p !! storageKey with
   | Some text =>
       if negb (String.eqb text "") then
         match JSON_parse text with
         | Some repos => Return repos
         | None => Throw SyntaxError
         end
       else Return (VArr [])
   | None => Return (VArr [])
   end, p).
Proof.
  unfold getRepos. unfold_P.
  destruct (localStorage p !! storageKey) as [text|]; [|reflexivity].
  destruct (negb _); [|reflexivity].
  now destruct (JSON_parse text).
Qed.

Lemma addRepo_unfold url p :
  addRepo' url p =
  match parseRepoURL url with
  | Throw e => (Return (failed e), p)
  | Return ref =>
      match (getRepos' p).1 with
      | Throw e => (Return (failed e), p)
      | Return repos =>
          match array_some' repos (same_repo' (owner ref) (repo ref)) with
          | Throw e => (Return (failed e), p)
          | Return true =>
              (Return (failed (JsError "Repository already exists in the list")), p)
          | Return false =>
              let r := getRepository (owner ref) (repo ref) (client p) in
              let p1 := {| client := r.2; localStorage := localStorage p;
                          list_container := list_container p |} in
              match r.1 with
              | Throw e => (Return (failed e), p1)
              | Return repoData =>
                  match get_property' repoData "html_url" with
                  | Throw e => (Return (failed e), p1)
                  | Return h =>
                      match get_property' repoData "description" with
                      | Throw e => (Return (failed e), p1)
                      | Return d =>
                          match array_push' repos (added_record' ref h d (clock r.2)) with
                          | Throw e => (Return (failed e), p1)
                          | Return repos' =>
                              (Return added,
                               {| client := r.2;
                                  localStorage :=
                                    <[storageKey := JSON_stringify repos']>
                                      (localStorage p);
                                  list_container := list_container p |})
                          end
                      end
                  end
              end
          end
      end
  end.
Proof.
  unfold addRepo. unfold catch at 1. unfold mbind at 1. unfold P_bind at 1.
  unfold of_outcome at 1.
  destruct (parseRepoURL url) as [ref|e]; [|reflexivity].
  unfold mbind at 1. unfold P_bind at 1.
  pose proof (f_equal snd (getRepos_unfold p)) as Hstate. cbn [snd] in Hstate.
  destruct (getRepos' p) as [[repos|e] p']; cbn [fst snd] in *; subst p';
    [|reflexivity].
  unfold mbind at 1. unfold P_bind at 1. unfold of_outcome at 1.
  destruct (array_some' repos _) as [[|]|e]; [reflexivity| |reflexivity].
  unfold mbind at 1. unfold P_bind at 1. unfold lift at 1.
  cbn zeta.
  destruct (getRepository (owner ref) (repo ref) (client p)) as [[repoData|e] w1];
    cbn [fst snd]; [|reflexivity].
  unfold mbind at 1. unfold P_bind at 1. unfold of_outcome at 1.
  destruct (get_property' repoData "html_url") as [h|e]; [|reflexivity].
  unfold mbind at 1. unfold P_bind at 1. unfold of_outcome at 1.
  destruct (get_property' repoData "description") as [d|e]; [|reflexivity].
  unfold_P. unfold Date_now. cbn.
  destruct (array_push' repos _) as [repos'|e]; reflexivity.
Qed.

Lemma some_loop_app callback items more :
  some_loop callback items = Return false ->
  some_loop callback (items ++ more) = some_loop callback more.
Proof.
  induction items as [|r items IH]; [done|]. cbn.
  destruct (callback r) as [[|]|e]; [done | exact IH | done].
Qed.

Lemma is_string_same s : is_string (VStr s) s = true.
Proof. apply String.eqb_refl. Qed.

Lemma some_loop_found o n items :
  Forall (fun r => r <> VNull /\ r <> VUndefined) items ->
  Exists (fun r => get_property' r "owner" = Return (VStr o)
                   /\ get_property' r "repo" = Return (VStr n)) items ->
  some_loop (same_repo' o n) items = Return true.
Proof.
  intros Hall Hex. induction items as [|r items IH]; [inversion Hex|].
  apply Forall_cons in Hall as [[Hnull Hundef] Hall]. cbn.
  assert (same_repo' o n r = Return true
          \/ (same_repo' o n r = Return false
              /\ ~ (get_property' r "owner" = Return (VStr o)
                    /\ get_property' r "repo" = Return (VStr n)))) as [->| [-> Hno]].
  { unfold same_repo.
    destruct (get_property' r "owner") as [vo|e] eqn:Eo.
    2: { destruct r; cbn in Eo; done. }
    destruct (is_string vo o) eqn:Es.
    - destruct (get_property' r "repo") as [vn|e] eqn:En.
      2: { destruct r; cbn in En; done. }
      destruct (is_string vn n) eqn:Es'; [now left|].
      right. split; [done|]. intros [_ [= ->]].
      now rewrite is_string_same in Es'.
    - right. split; [done|]. intros [[= ->] _].
      now rewrite is_string_same in Es. }
  - reflexivity.
  - apply IH; [done|]. apply Exists_cons in Hex as [Hhere|Hlater]; done.
Qed.

Lemma parseRepoURL_throws url e :
  parseRepoURL url = Throw e -> e = JsError "Invalid GitHub repository URL".
Proof.
  unfold parseRepoURL.
  destruct (Regex.exec repo_regex url) as [[|m1 [|m2 [|m3 caps]]]|];
    congruence.
Qed.

Lemma addRepo_added_no_match url p ref items :
  parseRepoURL url = Return ref ->
  (getRepos' p).1 = Return (VArr items) ->
  (addRepo' url p).1 = Return added ->
  some_loop (same_repo' (owner ref) (repo ref)) items = Return false.
Proof.
  intros Hparse Hlist. rewrite addRepo_unfold, Hparse, Hlist.
  cbn [array_some].
  destruct (some_loop _ items) as [[|]|e]; [discriminate | done | discriminate].
Qed.

(** X13: [addRepo] never throws: it returns a result, the success result
    with its fixed message or a failure, and whenever it reports a failure
    the stored list is what it was. *)
Theorem addRepo_never_throws (url : string) (p : Page) :
  exists r,
    (addRepo' url p).1 = Return r
    /\ (success r = true -> r = added)
    /\ (success r = false ->
        localStorage (addRepo' url p).2 = localStorage p).
Proof.
  rewrite addRepo_unfold.
  repeat match goal with
         | |- context [match ?x with _ => _ end] => destruct x; cbn zeta
         end;
    eexists; (split; [reflexivity|]); split; cbn; done.
Qed.

(** X14: an input that [parseRepoURL] refuses is answered with its message
    and nothing else happens: the stored list is not read, nothing is sent. *)
Theorem addRepo_invalid_url (url : string) (p : Page) (e : thrown) :
  parseRepoURL url = Throw e ->
  addRepo' url p
  = (Return {| success := false; message := "Invalid GitHub repository URL" |},
     p).
Proof.
  intros H. rewrite addRepo_unfold, H.
  now rewrite (parseRepoURL_throws _ _ H).
Qed.

(** X15: when the stored list is an array of records and one of them has
    the owner and the repo of the input, [addRepo] answers that the
    repository already exists and the page is as before: no request was sent
    and nothing was stored. *)
Theorem addRepo_duplicate
    (url : string) (p : Page) (ref : RepoRef) (items : list value) :
  parseRepoURL url = Return ref ->
  (getRepos' p).1 = Return (VArr items) ->
  Forall (fun r => r <> VNull /\ r <> VUndefined) items ->
  Exists (fun r => get_property' r "owner" = Return (VStr (owner ref))
                   /\ get_property' r "repo" = Return (VStr (repo ref))) items ->
  addRepo' url p
  = (Return {| success := false;
               message := "Repository already exists in the list" |}, p).
Proof.
  intros Hparse Hlist Hall Hex. rewrite addRepo_unfold, Hparse, Hlist.
  cbn [array_some]. now rewrite (some_loop_found _ _ _ Hall Hex).
Qed.

(** X16: when [addRepo] reports success, the input parsed, the stored list
    was an array in which no record had that owner and repo, the repository
    was fetched, and the list now stored is the old one followed by one
    record with the parsed owner and repo, the two fields of the fetched
    data and the time of adding. *)
Theorem addRepo_success (url : string) (p : Page) (r : AddResult) :
  (addRepo' url p).1 = Return r -> success r = true ->
  exists ref items repoData h d,
    parseRepoURL url = Return ref
    /\ (getRepos' p).1 = Return (VArr items)
    /\ some_loop (same_repo' (owner ref) (repo ref)) items = Return false
    /\ (getRepository (owner ref) (repo ref) (client p)).1 = Return repoData
    /\ get_property' repoData "html_url" = Return h
    /\ get_property' repoData "description" = Return d
    /\ localStorage (addRepo' url p).2
       = <[storageKey :=
             JSON_stringify
               (VArr (items ++
                      [added_record' ref h d
                         (clock (client (addRepo' url p).2))]))]>
           (localStorage p).
Proof.
  rewrite addRepo_unfold.
  destruct (parseRepoURL url) as [ref|e]; [|now intros [= <-]].
  destruct (getRepos' p).1 as [repos|e]; [|now intros [= <-]].
  destruct (array_some' repos _) as [[|]|e] eqn:Esome; try now intros [= <-].
  cbn zeta.
  destruct (getRepository _ _ _).1 as [repoData|e] eqn:Eget; [|now intros [= <-]].
  destruct (get_property' repoData "html_url") as [h|e] eqn:Eh; [|now intros [= <-]].
  destruct (get_property' repoData "description") as [d|e] eqn:Ed; [|now intros [= <-]].
  destruct repos as [| | | | |items|]; cbn [array_push]; try now intros [= <-].
  intros _ _. exists ref, items, repoData, h, d. cbn. done.
Qed.

(** X17: when the list has no record of the repository and the server
    answers the request for it with a status outside 200-299, [addRepo]
    reports the failure with that status in the message, and neither the
    stored list nor the cache changes. *)
Theorem addRepo_remote_status
    (url : string) (p : Page) (ref : RepoRef) (repos : value) (r : Response) :
  parseRepoURL url = Return ref ->
  (getRepos' p).1 = Return repos ->
  array_some' repos (same_repo' (owner ref) (repo ref)) = Return false ->
  ~ served_from_cache (client p) (repository_endpoint (owner ref) (repo ref)) ->
  result (network (client p)
            (baseURL (this (client p))
               +:+ repository_endpoint (owner ref) (repo ref))
            (clock (client p))) = Resolved r ->
  ok r = false ->
  (addRepo' url p).1
  = Return {| success := false;
              message := "GitHub API error: " +:+ pretty (status r) |}
  /\ localStorage (addRepo' url p).2 = localStorage p
  /\ this (client (addRepo' url p).2) = this (client p).
Proof.
  intros Hparse Hlist Hsome Hno Hres Hok.
  rewrite addRepo_unfold, Hparse, Hlist, Hsome. cbn zeta.
  unfold getRepository. rewrite (request_not_served _ _ Hno).
  unfold request_network, fetch. unfold_M. rewrite Hres. cbn.
  rewrite Hok. cbn. done.
Qed.

(** X18: after a successful [addRepo], when the list read from storage is
    the list it found followed by a record it builds for that owner and
    repo, adding an input that parses to the same owner and repo is refused
    as already existing, and nothing is sent or stored. *)
Theorem addRepo_again_refused
    (url url2 : string) (p p2 : Page) (ref : RepoRef) (items : list value)
    (h d : value) (t : Z) :
  parseRepoURL url = Return ref -> parseRepoURL url2 = Return ref ->
  (getRepos' p).1 = Return (VArr items) ->
  (addRepo' url p).1 = Return added ->
  (getRepos' p2).1 = Return (VArr (items ++ [added_record' ref h d t])) ->
  addRepo' url2 p2
  = (Return {| success := false;
               message := "Repository already exists in the list" |}, p2).
Proof.
  intros Hparse Hparse2 Hlist Hadded Hback.
  pose proof (addRepo_added_no_match _ _ _ _ Hparse Hlist Hadded) as Hnone.
  rewrite addRepo_unfold, Hparse2, Hback. cbn [array_some].
  rewrite (some_loop_app _ _ _ Hnone). cbn.
  now rewrite !String.eqb_refl.
Qed.

(** X19: both pages read the list under the same key: with nothing stored
    there, or the empty string, each returns the empty list without parsing
    and leaves the page alone; after [saveRepos], each returns what parsing
    the saved text gives. *)
Theorem getRepos_reads_saved (p : Page) :
  (localStorage p !! storageKey = None
   \/ localStorage p !! storageKey = Some "" ->
   getRepos' p = (Return (VArr []), p)
   /\ Dashboard_getRepos' p = (Return (VArr []), p))
  /\ (forall repos v,
        JSON_stringify repos <> "" ->
        JSON_parse (JSON_stringify repos) = Some v ->
        (getRepos' (saveRepos JSON_stringify repos p).2).1 = Return v
        /\ (Dashboard_getRepos' (saveRepos JSON_stringify repos p).2).1
           = Return v).
Proof.
  assert (Dashboard_getRepos' = getRepos') as -> by reflexivity.
  split.
  - intros H. rewrite getRepos_unfold. now destruct H as [-> | ->].
  - intros repos v Hne Hparse. rewrite getRepos_unfold. unfold_P. cbn.
    rewrite lookup_insert_eq.
    apply String.eqb_neq in Hne. rewrite Hne. cbn. now rewrite Hparse.
Qed.

(** *** The list on the page and removal *)

Abbreviation loadRepoList' :=
  (loadRepoList JSON_parse type_error_message number_text).
Abbreviation removeRepo' :=
  (removeRepo JSON_parse JSON_stringify type_error_message number_text).
Abbreviation other_repo' := (other_repo type_error_message).
Abbreviation array_filter' := (array_filter type_error_message).
Abbreviation names' := (names type_error_message).

Lemma getRepos_state p : (getRepos' p).2 = p.
Proof. now rewrite getRepos_unfold. Qed.

Lemma loadRepoList_unfold p :
  loadRepoList' p =
  match list_container p with
  | None => (Return tt, p)
  | Some _ =>
      match (getRepos' p).1 with
      | Throw e => (Throw e, p)
      | Return repos =>
          match length_is_zero type_error_message repos with
          | Throw e => (Throw e, p)
          | Return true =>
              (Return tt,
               {| client := client p; localStorage := localStorage p;
                  list_container := Some no_repos_markup |})
          | Return false =>
              match array_map_join type_error_message repos
                      (repo_item_markup type_error_message number_text) with
              | Throw e => (Throw e, p)
              | Return markup =>
                  (Return tt,
                   {| client := client p; localStorage := localStorage p;
                      list_container := Some markup |})
              end
          end
      end
  end.
Proof.
  unfold loadRepoList. unfold mbind at 1. unfold P_bind at 1.
  unfold get_list_container at 1.
  destruct (list_container p); [|reflexivity].
  unfold mbind at 1. unfold P_bind at 1.
  pose proof (getRepos_state p) as Hstate.
  destruct (getRepos' p) as [[repos|e] p']; cbn [fst snd] in *; subst p';
    [|reflexivity].
  unfold mbind at 1. unfold P_bind at 1. unfold of_outcome at 1.
  destruct (length_is_zero _ repos) as [[|]|e]; [reflexivity| |reflexivity].
  unfold mbind at 1. unfold P_bind at 1. unfold of_outcome at 1.
  destruct (array_map_join _ repos _); reflexivity.
Qed.

Lemma loadRepoList_keeps p :
  localStorage (loadRepoList' p).2 = localStorage p
  /\ client (loadRepoList' p).2 = client p.
Proof.
  rewrite loadRepoList_unfold.
  repeat match goal with
         | |- context [match ?x with _ => _ end] => destruct x
         end; cbn; split; done.
Qed.

Lemma removeRepo_unfold o n p :
  removeRepo' o n p =
  match (getRepos' p).1 with
  | Throw e => (Throw e, p)
  | Return repos =>
      match array_filter' repos (other_repo' o n) with
      | Throw e => (Throw e, p)
      | Return filtered =>
          loadRepoList' (saveRepos JSON_stringify filtered p).2
      end
  end.
Proof.
  unfold removeRepo. unfold mbind at 1. unfold P_bind at 1.
  pose proof (getRepos_state p) as Hstate.
  destruct (getRepos' p) as [[repos|e] p']; cbn [fst snd] in *; subst p';
    [|reflexivity].
  unfold mbind at 1. unfold P_bind at 1. unfold of_outcome at 1.
  destruct (array_filter' repos _) as [filtered|e]; [|reflexivity].
  unfold mbind at 1. unfold P_bind at 1.
  unfold saveRepos, setItem. reflexivity.
Qed.

Lemma same_repo_readable o n item :
  item <> VNull -> item <> VUndefined ->
  same_repo' o n item = Return (names' o n item).
Proof.
  intros Hnull Hundef. unfold names, same_repo.
  destruct item; try done; cbn;
    repeat match goal with
           | |- context [if ?b then _ else _] => destruct b
           end; reflexivity.
Qed.

Lemma filter_loop_readable o n items :
  Forall (fun r => r <> VNull /\ r <> VUndefined) items ->
  filter_loop (other_repo' o n) items
  = Return (List.filter (fun item => negb (names' o n item)) items).
Proof.
  induction 1 as [|item items [Hnull Hundef] _ IH]; [reflexivity|].
  cbn. unfold other_repo at 1.
  rewrite (same_repo_readable _ _ _ Hnull Hundef), IH.
  now destruct (names' o n item).
Qed.

Lemma filter_loop_none o n items :
  some_loop (same_repo' o n) items = Return false ->
  filter_loop (other_repo' o n) items = Return items.
Proof.
  induction items as [|item items IH]; [reflexivity|]. cbn.
  unfold other_repo at 1.
  destruct (same_repo' o n item) as [[|]|e]; [done| |done].
  intros H. now rewrite (IH H).
Qed.

Lemma filter_loop_app callback items more kept kept' :
  filter_loop callback items = Return kept ->
  filter_loop callback more = Return kept' ->
  filter_loop callback (items ++ more) = Return (kept ++ kept').
Proof.
  revert kept. induction items as [|item items IH]; intros kept; cbn.
  - now intros [= <-].
  - destruct (callback item) as [keep|e]; [|done].
    destruct (filter_loop callback items) as [k|e]; [|done].
    intros [= <-] Hmore. rewrite (IH k eq_refl Hmore).
    now destruct keep.
Qed.

(** X20: when the stored list is an array of records, [removeRepo] stores
    the records that do not name the repository, in their order, whatever
    becomes of showing the list afterwards; when no record names it, the
    list stored is the list found. *)
Theorem removeRepo_filters
    (o n : string) (p : Page) (items : list value) :
  (getRepos' p).1 = Return (VArr items) ->
  Forall (fun r => r <> VNull /\ r <> VUndefined) items ->
  localStorage (removeRepo' o n p).2
  = <[storageKey :=
        JSON_stringify
          (VArr (List.filter (fun item => negb (names' o n item)) items))]>
      (localStorage p)
  /\ (Forall (fun item => names' o n item = false) items ->
      localStorage (removeRepo' o n p).2
      = <[storageKey := JSON_stringify (VArr items)]> (localStorage p)).
Proof.
  intros Hlist Hall.
  assert (localStorage (removeRepo' o n p).2
          = <[storageKey :=
                JSON_stringify
                  (VArr (List.filter (fun item => negb (names' o n item)) items))]>
              (localStorage p)) as Hstored.
  { rewrite removeRepo_unfold, Hlist. cbn [array_filter].
    rewrite (filter_loop_readable _ _ _ Hall).
    now rewrite (proj1 (loadRepoList_keeps _)). }
  split; [exact Hstored|].
  intros Hnone. rewrite Hstored. do 3 f_equal.
  clear -Hnone. induction Hnone as [|item items Hitem _ IH]; [reflexivity|].
  cbn. rewrite Hitem. cbn. now rewrite IH.
Qed.

(** X21: [removeRepo] has no catch: when the stored text does not parse, or
    parses to something that is no array, it throws and the page is as it
    was, nothing saved and nothing shown. *)
Theorem removeRepo_throws_unsaved (o n : string) (p : Page) :
  ((getRepos' p).1 = Throw SyntaxError ->
     removeRepo' o n p = (Throw SyntaxError, p))
  /\ (forall repos,
        (getRepos' p).1 = Return repos ->
        (forall items, repos <> VArr items) ->
        removeRepo' o n p
        = (Throw (TypeError (type_error_message repos "filter")), p)).
Proof.
  split.
  - intros H. now rewrite removeRepo_unfold, H.
  - intros repos H Hnot. rewrite removeRepo_unfold, H.
    destruct repos; try reflexivity. now destruct (Hnot items).
Qed.

(** X22: showing the list never writes to storage or to the API client,
    and on a page without the list container it does nothing at all,
    whatever is stored. *)
Theorem loadRepoList_confined (p : Page) :
  localStorage (loadRepoList' p).2 = localStorage p
  /\ client (loadRepoList' p).2 = client p
  /\ (list_container p = None -> loadRepoList' p = (Return tt, p)).
Proof.
  destruct (loadRepoList_keeps p) as (Hstorage & Hclient).
  split; [exact Hstorage|]. split; [exact Hclient|].
  intros H. now rewrite loadRepoList_unfold, H.
Qed.

(** X23: with the container on the page and nothing stored under the key,
    or the empty string, or an empty array, the container shows the note
    that no repository is configured. *)
Theorem loadRepoList_empty (p : Page) (old : string) :
  list_container p = Some old ->
  (getRepos' p).1 = Return (VArr []) ->
  (loadRepoList' p).1 = Return tt
  /\ list_container (loadRepoList' p).2 = Some no_repos_markup.
Proof.
  intros Hdoc Hlist. rewrite loadRepoList_unfold, Hdoc, Hlist.
  unfold length_is_zero. rewrite bool_decide_eq_true_2 by reflexivity.
  cbn [fst snd list_container]. split; reflexivity.
Qed.

(** X24: removing undoes adding: after a successful [addRepo], when the
    list read from storage is the list it found followed by the record it
    builds, [removeRepo] for that owner and repo stores the list that
    [addRepo] had found. *)
Theorem removeRepo_after_addRepo
    (url : string) (p p2 : Page) (ref : RepoRef) (items : list value)
    (h d : value) (t : Z) :
  parseRepoURL url = Return ref ->
  (getRepos' p).1 = Return (VArr items) ->
  (addRepo' url p).1 = Return added ->
  (getRepos' p2).1 = Return (VArr (items ++ [added_record' ref h d t])) ->
  localStorage (removeRepo' (owner ref) (repo ref) p2).2
  = <[storageKey := JSON_stringify (VArr items)]> (localStorage p2).
Proof.
  intros Hparse Hlist Hadded Hback.
  pose proof (addRepo_added_no_match _ _ _ _ Hparse Hlist Hadded) as Hnone.
  rewrite removeRepo_unfold, Hback. cbn [array_filter].
  rewrite (filter_loop_app _ _ _ items [] (filter_loop_none _ _ _ Hnone)).
  - rewrite app_nil_r. now rewrite (proj1 (loadRepoList_keeps _)).
  - cbn. unfold other_repo, same_repo. cbn. now rewrite !String.eqb_refl.
Qed.

End AdminFacts.
(** * Concrete runs *)

(** C1, as stated, fails: a fresh entry whose payload is [false] is not
    returned; the method requests the endpoint again. *)
Lemma request_falsy_payload_refetched :
  ~ (forall w endpoint e,
       fresh_entry w endpoint e -> request endpoint w = (Return (data e), w)).
Proof.
  intros H.
  specialize (H (world {["/flag" := flag_entry]} 2000 (server 200 (Some (VBool true))))
                "/flag" flag_entry).
  assert (fresh_entry (world {["/flag" := flag_entry]} 2000
                         (server 200 (Some (VBool true)))) "/flag" flag_entry)
    as Hfresh by (split; vm_compute; reflexivity).
  apply H in Hfresh. apply (f_equal fst) in Hfresh.
  vm_compute in Hfresh. discriminate Hfresh.
Qed.

Lemma request_cache_then_network_witness :
  request "/repos/acme/widgets"
    (world {["/repos/acme/widgets" := repo_entry]} 2000 offline)
  = (Return sample_repo,
     world {["/repos/acme/widgets" := repo_entry]} 2000 offline)
  /\ (request "/repos/acme/widgets" (world ∅ 2000 (server 200 (Some sample_repo)))).1
     = Return sample_repo.
Proof.
  split.
  - apply (proj1 (request_cache_then_network _ "/repos/acme/widgets") repo_entry).
    + split; vm_compute; reflexivity.
    + reflexivity.
  - destruct (request_cache_then_network
                (world ∅ 2000 (server 200 (Some sample_repo)))
                "/repos/acme/widgets") as [_ Hmiss].
    destruct Hmiss as [_ Hstore].
    + intros (e & [Hin _] & _). vm_compute in Hin. discriminate Hin.
    + apply (Hstore {| status := 200; body := Some sample_repo; body_delay := 3 |}
               sample_repo); reflexivity.
Defined.

Lemma request_failure_not_cached_witness :
  ((request "/repos/acme/gone" (world ∅ 2000 (server 404 None))).1
   = Throw (JsError "GitHub API error: 404")
   /\ this (request "/repos/acme/gone" (world ∅ 2000 (server 404 None))).2
      = this (world ∅ 2000 (server 404 None)))
  /\ ((request "/repos/acme/widgets" (world ∅ 2000 offline)).1
      = Throw (TypeError "Failed to fetch")
      /\ this (request "/repos/acme/widgets" (world ∅ 2000 offline)).2
         = this (world ∅ 2000 offline)).
Proof.
  split.
  - destruct (request_failure_not_cached
                (world ∅ 2000 (server 404 None)) "/repos/acme/gone"
                (JsError "GitHub API error: 404")) as (Hthrow & Hthis & _).
    + intros (e & [Hin _] & _). vm_compute in Hin. discriminate Hin.
    + apply (status_failure _ {| status := 404; body := None; body_delay := 3 |});
        reflexivity.
    + split; [exact Hthrow | exact Hthis].
  - destruct (request_failure_not_cached
                (world ∅ 2000 offline) "/repos/acme/widgets"
                (TypeError "Failed to fetch")) as (Hthrow & Hthis & _).
    + intros (e & [Hin _] & _). vm_compute in Hin. discriminate Hin.
    + apply transport_failure. reflexivity.
    + split; [exact Hthrow | exact Hthis].
Defined.

Lemma getCached_fresh_or_miss_witness :
  (getCached "/repos/acme/widgets"
     (world {["/repos/acme/widgets" := repo_entry]} 2000 offline)).1
  = Return sample_repo
  /\ (getCached "/repos/acme/widgets"
        (world {["/repos/acme/widgets" := repo_entry]} 301000 offline)).1
     = Return VNull
  /\ (getCached "/repos/acme/other"
        (world {["/repos/acme/widgets" := repo_entry]} 2000 offline)).1
     = Return VNull.
Proof.
  split; [|split].
  - apply (proj1 (proj2 (getCached_fresh_or_miss _ _)) repo_entry);
      vm_compute; reflexivity.
  - apply (proj1 (proj2 (proj2 (getCached_fresh_or_miss _ _))) repo_entry).
    + vm_compute; reflexivity.
    + vm_compute. discriminate.
  - apply (proj2 (proj2 (proj2 (getCached_fresh_or_miss _ _)))).
    vm_compute; reflexivity.
Defined.

Lemma setCache_then_getCached_witness :
  (getCached "/repos/acme/widgets"
     (elapse 299999
        (setCache "/repos/acme/widgets" sample_repo
           (world {["/repos/acme/widgets" := flag_entry]} 2000 offline)).2)).1
  = Return sample_repo.
Proof.
  apply (proj2 (proj2 (proj2
           (setCache_then_getCached
              (world {["/repos/acme/widgets" := flag_entry]} 2000 offline)
              "/repos/acme/widgets" sample_repo)))).
  - reflexivity.
  - vm_compute. reflexivity.
Defined.

Lemma request_error_kinds_witness :
  (request "/repos/acme/gone" (world ∅ 2000 (server 404 None))).1
  = Throw (JsError "GitHub API error: 404")
  /\ (request "/repos/acme/widgets" (world ∅ 2000 offline)).1
     = Throw (TypeError "Failed to fetch").
Proof.
  split.
  - refine (proj1 (request_error_kinds (world ∅ 2000 (server 404 None))
                     "/repos/acme/gone" _)
              {| status := 404; body := None; body_delay := 3 |} _ _).
    + intros (e & [Hin _] & _). vm_compute in Hin. discriminate Hin.
    + reflexivity.
    + reflexivity.
  - refine (proj1 (proj2 (request_error_kinds (world ∅ 2000 offline)
                            "/repos/acme/widgets" _))
              "Failed to fetch" _).
    + intros (e & [Hin _] & _). vm_compute in Hin. discriminate Hin.
    + reflexivity.
Defined.

Lemma parseRepoURL_two_segments_witness :
  parseRepoURL "https://github.com/acme/widgets.git"
  = Return {| owner := "acme"; repo := "widgets" |}
  /\ parseRepoURL "git@github.com:acme/widgets"
     = Throw (JsError "Invalid GitHub repository URL").
Proof.
  split.
  - refine (proj1 (proj1 (parseRepoURL_two_segments _)
                     "https://" "acme" "widgets.git" "" _ _) "widgets" _).
    + repeat split; try discriminate. now left.
    + intros pre' o g r [Heq _].
      do 8 (destruct pre' as [|? pre'];
            [simpl in Heq; discriminate Heq
            |simpl in Heq; injection Heq as _ Heq]).
      simpl. lia.
    + reflexivity.
  - apply (proj2 (proj2 (parseRepoURL_two_segments _))).
    intros pre o g r [Heq _].
    do 4 (destruct pre as [|? pre];
          [simpl in Heq; discriminate Heq
          |simpl in Heq; injection Heq as _ Heq]).
    destruct pre as [|? pre]; simpl in Heq.
    + discriminate Heq.
    + injection Heq as _ Heq.
      repeat (destruct pre as [|? pre];
              [simpl in Heq; discriminate Heq
              |simpl in Heq; try discriminate Heq; injection Heq as _ Heq]).
Defined.

(** C8, as stated, fails: a status that is the empty string is not absent,
    yet it is not what the two functions return. *)
Lemma status_empty_string_defaults :
  ~ (forall conclusion status,
       status <> VStr "in_progress" -> status <> VStr "queued" ->
       conclusion <> VStr "success" -> conclusion <> VStr "failure" ->
       conclusion <> VStr "cancelled" ->
       status <> VNull -> status <> VUndefined ->
       getStatusClass conclusion status = status
       /\ getStatusText conclusion status = status).
Proof.
  intros H.
  destruct (H VNull (VStr "")) as [Hclass _]; try discriminate.
Qed.

Lemma status_precedence_witness :
  (getStatusClass (VStr "success") (VStr "completed") = VStr "success"
   /\ getStatusText (VStr "success") (VStr "completed") = VStr "Success")
  /\ (getStatusClass VNull (VStr "in_progress") = VStr "in_progress"
      /\ getStatusText VNull (VStr "in_progress") = VStr "In Progress")
  /\ (getStatusClass VNull VUndefined = VStr "queued"
      /\ getStatusText VNull VUndefined = VStr "Unknown").
Proof.
  split; [|split].
  - destruct (status_precedence (VStr "success") (VStr "completed"))
      as (_ & _ & H).
    destruct H as (H & _); [discriminate | discriminate |].
    apply H. reflexivity.
  - apply (proj1 (status_precedence VNull (VStr "in_progress"))). reflexivity.
  - destruct (status_precedence VNull VUndefined) as (_ & _ & H).
    destruct H as (_ & _ & _ & H); [discriminate | discriminate |].
    destruct H as [_ H]; [discriminate | discriminate | discriminate |].
    apply H. reflexivity.
Defined.

Lemma formatDate_buckets_witness :
  formatDate parse_sample locale_sample "2024-01-01T00:00:00Z"
    (world ∅ (1704067200000 + 90 * 60000) offline)
  = (Return "1 hour ago", world ∅ (1704067200000 + 90 * 60000) offline).
Proof.
  refine (proj1 (proj2 (proj2
            (formatDate_buckets parse_sample locale_sample
               (world ∅ (1704067200000 + 90 * 60000) offline)
               "2024-01-01T00:00:00Z" 1704067200000 _ _))) _).
  - reflexivity.
  - vm_compute. reflexivity.
  - vm_compute. split; [discriminate | reflexivity].
Defined.

Lemma formatDate_future_witness :
  formatDate parse_sample locale_sample "2024-01-01T00:00:00Z"
    (world ∅ (1704067200000 - 5000) offline)
  = (Return "just now", world ∅ (1704067200000 - 5000) offline).
Proof.
  apply (formatDate_future parse_sample locale_sample _ _ 1704067200000).
  - reflexivity.
  - vm_compute. discriminate.
Defined.

(** ** Concrete runs of the further properties *)

Lemma request_frame_witness :
  cache (this (request "/repos/acme/gadgets"
                 (world {["/repos/acme/widgets" := repo_entry]} 2000
                    (server 200 (Some sample_repo)))).2)
    !! "/repos/acme/widgets"
  = Some repo_entry.
Proof.
  etrans.
  - apply (proj1 (proj2 (proj2 (request_frame _ "/repos/acme/gadgets")))).
    discriminate.
  - vm_compute. reflexivity.
Defined.

Lemma request_effects_witness :
  console (request "/repos/acme/gone" (world ∅ 2000 (server 404 None))).2
  = [JsError "GitHub API error: 404"].
Proof.
  apply (proj2 (proj2
           (request_effects (world ∅ 2000 (server 404 None)) "/repos/acme/gone"))).
  vm_compute. reflexivity.
Defined.

Lemma request_after_store_witness :
  request "/repos/acme/widgets"
    (elapse 1000
       (request "/repos/acme/widgets"
          (world ∅ 2000 (server 200 (Some sample_repo)))).2)
  = (Return sample_repo,
     elapse 1000
       (request "/repos/acme/widgets"
          (world ∅ 2000 (server 200 (Some sample_repo)))).2).
Proof.
  refine (proj1 (request_after_store
                   (world ∅ 2000 (server 200 (Some sample_repo)))
                   (request "/repos/acme/widgets"
                      (world ∅ 2000 (server 200 (Some sample_repo)))).2
                   "/repos/acme/widgets" sample_repo _ _ _ _ _) _).
  - intros (e & [Hin _] & _). vm_compute in Hin. discriminate Hin.
  - vm_compute. reflexivity.
  - reflexivity.
  - reflexivity.
  - vm_compute. reflexivity.
Defined.

Lemma endpoint_determines_call_witness :
  workflow_runs_endpoint "acme" "widgets" seven three
  <> workflow_runs_endpoint "acme" "widgets" seven five.
Proof.
  intros H.
  apply (proj1 (proj2 (proj2
           (endpoint_determines_call "acme" "widgets" "acme" "widgets"
              eq_refl eq_refl eq_refl eq_refl)))) in H.
  destruct H as (_ & _ & _ & H). discriminate H.
Defined.

Lemma endpoints_of_accessors_differ_witness :
  repository_endpoint "acme" "widgets" <> workflows_endpoint "acme" "widgets".
Proof.
  exact (proj1 (endpoints_of_accessors_differ "acme" "widgets" "acme" "widgets"
                  zero zero zero eq_refl eq_refl eq_refl eq_refl)).
Defined.

Lemma page_sizes_cached_apart_witness :
  cache (this (getWorkflowRuns "acme" "widgets" seven (Some three)
                 (world ∅ 2000 (server 200 (Some sample_repo)))).2)
    !! workflow_runs_endpoint "acme" "widgets" seven five
  = None.
Proof.
  etrans.
  - apply (proj1 (page_sizes_cached_apart _ "acme" "widgets" seven three five
                    ltac:(discriminate))).
  - vm_compute. reflexivity.
Defined.

Lemma parseRepoURL_segments_witness :
  segment "acme" /\ slash_free "widgets" = true.
Proof.
  apply (parseRepoURL_segments "https://github.com/acme/widgets.git"
           {| owner := "acme"; repo := "widgets" |}).
  vm_compute. reflexivity.
Defined.

Lemma parsed_refs_have_own_keys_witness :
  {| owner := "acme"; repo := "widgets" |}
  = {| owner := "acme"; repo := "widgets" |}.
Proof.
  apply (parsed_refs_have_own_keys
           "https://github.com/acme/widgets"
           "git clone https://github.com/acme/widgets.git").
  - vm_compute. reflexivity.
  - vm_compute. reflexivity.
  - reflexivity.
Defined.

Lemma parseRepoURL_web_address_witness :
  parseRepoURL "https://www.github.com/acme/widgets.git"
  = Return {| owner := "acme"; repo := "widgets" |}
  /\ parseRepoURL "https://github.com/acme/widgets/issues/42"
     = Return {| owner := "acme"; repo := "widgets" |}.
Proof.
  split.
  - refine (proj1 (parseRepoURL_web_address "https://www." "acme" "widgets"
                     eq_refl (conj _ eq_refl) eq_refl)).
    discriminate.
  - refine (proj2 (parseRepoURL_web_address "https://" "acme" "widgets"
                     eq_refl (conj _ eq_refl) eq_refl) _ _ "/issues/42" _).
    + discriminate.
    + discriminate.
    + intros n H.
      do 8 (destruct n as [|? n]; [cbn in H; discriminate H|]).
      cbn in H. discriminate H.
    + right. now exists "issues/42".
Defined.

Lemma status_never_empty_witness :
  exists class label,
    getStatusClass VNull VUndefined = VStr class
    /\ getStatusText VNull VUndefined = VStr label
    /\ class <> "" /\ label <> "".
Proof.
  apply (proj2 (proj2 (status_never_empty VNull VUndefined))).
  right. left. reflexivity.
Defined.

Lemma formatDate_singular_plural_witness :
  formatDate parse_sample locale_sample "2024-01-01T00:00:00Z"
    (world ∅ (1704067200000 + 90000) offline)
  = (Return "1 minute ago", world ∅ (1704067200000 + 90000) offline).
Proof.
  refine (proj1 (formatDate_singular_plural parse_sample locale_sample
                   (world ∅ (1704067200000 + 90000) offline)
                   "2024-01-01T00:00:00Z" 1704067200000 _) _).
  - reflexivity.
  - vm_compute. split; [discriminate | reflexivity].
Defined.

Lemma formatDate_invalid_witness :
  formatDate parse_sample locale_sample "yesterday" (world ∅ 2000 offline)
  = (Return "Invalid Date", world ∅ 2000 offline).
Proof.
  apply (formatDate_invalid parse_sample locale_sample). reflexivity.
Defined.

Lemma addRepo_never_throws_witness :
  localStorage
    (addRepo_sample "https://github.com/acme/widgets"
       (page ∅ 2000 offline {["github-repos" := "[]"]})).2
  = {["github-repos" := "[]"]}.
Proof.
  destruct (addRepo_never_throws parse_json_sample stringify_sample iso_sample
              "Unexpected token" type_error_sample
              "https://github.com/acme/widgets"
              (page ∅ 2000 offline {["github-repos" := "[]"]}))
    as (r & Hr & _ & Hfailed).
  apply Hfailed. vm_compute in Hr. injection Hr as <-. reflexivity.
Defined.

Lemma addRepo_invalid_url_witness :
  addRepo_sample "git@github.com:acme/widgets"
    (page ∅ 2000 offline {["github-repos" := "[]"]})
  = (Return {| success := false; message := "Invalid GitHub repository URL" |},
     page ∅ 2000 offline {["github-repos" := "[]"]}).
Proof.
  apply (addRepo_invalid_url _ _ _ _ _ _ _
           (JsError "Invalid GitHub repository URL")).
  vm_compute. reflexivity.
Defined.

Lemma addRepo_duplicate_witness :
  addRepo_sample "https://github.com/acme/widgets.git"
    (page ∅ 2000 offline {["github-repos" := "[widgets]"]})
  = (Return {| success := false;
               message := "Repository already exists in the list" |},
     page ∅ 2000 offline {["github-repos" := "[widgets]"]}).
Proof.
  apply (addRepo_duplicate _ _ _ _ _ _ _ widgets_ref [widgets_record]).
  - vm_compute. reflexivity.
  - vm_compute. reflexivity.
  - constructor; [split; discriminate | constructor].
  - constructor. split; reflexivity.
Defined.

Lemma addRepo_success_witness :
  exists ref items repoData h d,
    parseRepoURL "https://github.com/acme/widgets" = Return ref
    /\ (getRepos parse_json_sample
          (page ∅ 2000 (server 200 (Some widgets_data)) ∅)).1
       = Return (VArr items)
    /\ some_loop (same_repo type_error_sample (owner ref) (repo ref)) items
       = Return false
    /\ (getRepository (owner ref) (repo ref)
          (client (page ∅ 2000 (server 200 (Some widgets_data)) ∅))).1
       = Return repoData
    /\ get_property type_error_sample repoData "html_url" = Return h
    /\ get_property type_error_sample repoData "description" = Return d
    /\ localStorage
         (addRepo_sample "https://github.com/acme/widgets"
            (page ∅ 2000 (server 200 (Some widgets_data)) ∅)).2
       = <[storageKey :=
             stringify_sample
               (VArr (items ++
                      [added_record iso_sample ref h d
                         (clock
                            (client
                               (addRepo_sample "https://github.com/acme/widgets"
                                  (page ∅ 2000 (server 200 (Some widgets_data)) ∅)).2))]))]>
           (localStorage (page ∅ 2000 (server 200 (Some widgets_data)) ∅)).
Proof.
  apply (addRepo_success parse_json_sample stringify_sample iso_sample
           "Unexpected token" type_error_sample
           "https://github.com/acme/widgets"
           (page ∅ 2000 (server 200 (Some widgets_data)) ∅) added).
  - vm_compute. reflexivity.
  - reflexivity.
Defined.

Lemma addRepo_remote_status_witness :
  (addRepo_sample "https://github.com/acme/gone"
     (page ∅ 2000 (server 404 None) ∅)).1
  = Return {| success := false; message := "GitHub API error: 404" |}.
Proof.
  refine (proj1 (addRepo_remote_status parse_json_sample stringify_sample
                   iso_sample "Unexpected token" type_error_sample
                   "https://github.com/acme/gone"
                   (page ∅ 2000 (server 404 None) ∅)
                   {| owner := "acme"; repo := "gone" |} (VArr [])
                   {| status := 404; body := None; body_delay := 3 |}
                   _ _ _ _ _ _)).
  - vm_compute. reflexivity.
  - reflexivity.
  - reflexivity.
  - intros (e & [Hin _] & _). vm_compute in Hin. discriminate Hin.
  - reflexivity.
  - reflexivity.
Defined.

Lemma addRepo_again_refused_witness :
  addRepo_sample "https://github.com/acme/widgets.git"
    (addRepo_sample "https://github.com/acme/widgets"
       (page ∅ 2000 (server 200 (Some widgets_data)) ∅)).2
  = (Return {| success := false;
               message := "Repository already exists in the list" |},
     (addRepo_sample "https://github.com/acme/widgets"
        (page ∅ 2000 (server 200 (Some widgets_data)) ∅)).2).
Proof.
  apply (addRepo_again_refused parse_json_sample stringify_sample iso_sample
           "Unexpected token" type_error_sample
           "https://github.com/acme/widgets"
           "https://github.com/acme/widgets.git"
           (page ∅ 2000 (server 200 (Some widgets_data)) ∅) _
           widgets_ref []
           (VStr "https://github.com/acme/widgets") (VStr "Widgets") 2123).
  - vm_compute. reflexivity.
  - vm_compute. reflexivity.
  - reflexivity.
  - vm_compute. reflexivity.
  - vm_compute. reflexivity.
Defined.

Lemma getRepos_reads_saved_witness :
  getRepos parse_json_sample (page ∅ 2000 offline ∅)
  = (Return (VArr []), page ∅ 2000 offline ∅)
  /\ (Dashboard_getRepos parse_json_sample
        (saveRepos stringify_sample (VArr [widgets_record])
           (page ∅ 2000 offline ∅)).2).1
     = Return (VArr [widgets_record]).
Proof.
  split.
  - apply (proj1 (getRepos_reads_saved parse_json_sample stringify_sample _)).
    left. reflexivity.
  - apply (proj2 (getRepos_reads_saved parse_json_sample stringify_sample _)
             (VArr [widgets_record]) (VArr [widgets_record])).
    + discriminate.
    + reflexivity.
Defined.

Lemma removeRepo_filters_witness :
  localStorage
    (removeRepo_sample "acme" "widgets"
       (page ∅ 2000 offline {["github-repos" := "[widgets]"]})).2
  = {["github-repos" := "[]"]}.
Proof.
  etrans.
  - refine (proj1 (removeRepo_filters parse_json_sample stringify_sample
                     type_error_sample number_sample "acme" "widgets"
                     (page ∅ 2000 offline {["github-repos" := "[widgets]"]})
                     [widgets_record] _ _)).
    + vm_compute. reflexivity.
    + constructor; [split; discriminate | constructor].
  - vm_compute. reflexivity.
Defined.

Lemma removeRepo_throws_unsaved_witness :
  removeRepo_sample "acme" "widgets"
    (page ∅ 2000 offline {["github-repos" := "oops"]})
  = (Throw SyntaxError, page ∅ 2000 offline {["github-repos" := "oops"]}).
Proof.
  apply (proj1 (removeRepo_throws_unsaved parse_json_sample stringify_sample
                  type_error_sample number_sample "acme" "widgets" _)).
  vm_compute. reflexivity.
Defined.

Lemma loadRepoList_confined_witness :
  loadRepoList_sample
    {| client := world ∅ 2000 offline;
       localStorage := {["github-repos" := "oops"]};
       list_container := None |}
  = (Return tt,
     {| client := world ∅ 2000 offline;
        localStorage := {["github-repos" := "oops"]};
        list_container := None |}).
Proof.
  apply (proj2 (proj2
           (loadRepoList_confined parse_json_sample type_error_sample
              number_sample _))).
  vm_compute. reflexivity.
Defined.

Lemma loadRepoList_empty_witness :
  list_container (loadRepoList_sample (page ∅ 2000 offline ∅)).2
  = Some no_repos_markup.
Proof.
  refine (proj2 (loadRepoList_empty parse_json_sample type_error_sample
                   number_sample (page ∅ 2000 offline ∅) "" _ _)).
  - vm_compute. reflexivity.
  - vm_compute. reflexivity.
Defined.

Lemma removeRepo_after_addRepo_witness :
  localStorage
    (removeRepo_sample "acme" "widgets"
       (addRepo_sample "https://github.com/acme/widgets"
          (page ∅ 2000 (server 200 (Some widgets_data)) ∅)).2).2
    !! "github-repos"
  = Some "[]".
Proof.
  rewrite (removeRepo_after_addRepo parse_json_sample stringify_sample
             iso_sample "Unexpected token" type_error_sample number_sample
             "https://github.com/acme/widgets"
             (page ∅ 2000 (server 200 (Some widgets_data)) ∅) _
             widgets_ref []
             (VStr "https://github.com/acme/widgets") (VStr "Widgets") 2123).
  - apply lookup_insert_eq.
  - vm_compute. reflexivity.
  - reflexivity.
  - vm_compute. reflexivity.
  - vm_compute. reflexivity.
Defined.
